(** * Pedigree API: a shallow embedding of [back/app] and its specification

    The development follows the layout of the Python package:

    - [schemas.py], [models.py], [config.py]: records for the request bodies,
      the two tables and the settings object;
    - [crud.py]: identity verification, the account store and the snapshot
      store, in a state-and-exception monad over a [world];
    - [main.py]: bearer extraction and the HTTP handlers.

    Python objects that the code mutates or could alias (the stored document,
    the [upserts] dictionary, the [deletes] list, the working copy [current])
    live in an object store [heap] and are passed around by reference, as in
    Python. Person records and the other JSON values nested inside those
    objects are never mutated by any function of the package; they are
    immutable [json] trees.

    The identity provider, the token verification library and the codecs
    ([base64], [gzip], UTF-8, [json.loads]) are not part of the package: they
    are variables of the sections that need them. *)

From stdpp Require Import gmap strings list fin_maps.
From Stdlib Require Import ZArith Ascii String.

Set Warnings "-register-all".
Open Scope Z_scope.
Open Scope string_scope.

(* ===================================================================== *)
(** ** Python values *)
(* ===================================================================== *)

(** What [json.loads] produces and what a JSON column stores. A float keeps
    its lexeme only: no function of the package computes with numbers. *)
Inductive json : Type :=
  | JNull
  | JBool (b : bool)
  | JInt (n : Z)
  | JFloat (lexeme : string)
  | JStr (s : string)
  | JArr (items : list json)
  | JObj (members : gmap string json).

(** [bytes] objects. *)
Definition bytes := list Byte.byte.

(** A reference to an object of the store. *)
Definition loc := positive.

(** [isinstance(x, dict)] *)
Definition is_dict (x : json) : bool :=
  match x with JObj _ => true | _ => false end.

(** [not s] for a value of type [str | None]: [None] and the empty string
    are falsy. *)
Definition falsy (s : option string) : bool :=
  match s with
  | None => true
  | Some s => bool_decide (s = "")
  end.

(** The one-character strings that iterating over a [str] yields. *)
Fixpoint characters (s : string) : list string :=
  match s with
  | EmptyString => []
  | String c s' => String c EmptyString :: characters s'
  end.

(* ===================================================================== *)
(** ** schemas.py *)
(* ===================================================================== *)

Module GoogleLoginRequest.
Record t := {
  id_token : option string;
  google_sub : option string;
  email : option string;
  name : option string;
  photo_url : option string;
}.
End GoogleLoginRequest.

Module UserResponse.
Record t := {
  id : Z;
  google_sub : option string;
  email : option string;
  name : option string;
  photo_url : option string;
}.
End UserResponse.

Module SnapshotUpsertRequest.
Record t := { people_by_id : gmap string json }.
End SnapshotUpsertRequest.

Module SnapshotPatchRequest.
Record t := {
  upserts : gmap string json;
  deletes : list string;
  compressed : bool;
  payload_b64 : option string;
}.
End SnapshotPatchRequest.

Module SnapshotResponse.
Record t := {
  user_id : Z;
  people_by_id : gmap string json;
}.
End SnapshotResponse.

(* ===================================================================== *)
(** ** models.py *)
(* ===================================================================== *)

(** The [created_at] and [updated_at] columns are filled in by the database
    server and read by no function of the package; they are left out. *)
Module User.
Record t := {
  id : Z;
  google_sub : option string;
  email : option string;
  name : option string;
  photo_url : option string;
}.
End User.

(** [people_json] is the in-memory Python object of the JSON column. *)
Module PedigreeSnapshot.
Record t := {
  id : Z;
  user_id : Z;
  people_json : loc;
}.
End PedigreeSnapshot.

(* ===================================================================== *)
(** ** config.py *)
(* ===================================================================== *)

Module Settings.
Record t := { google_client_id : option string }.
End Settings.

(* ===================================================================== *)
(** ** The world: object store, session, outbound calls *)
(* ===================================================================== *)

(** The identity dictionary built by the two verifiers, with its four keys. *)
Module Identity.
Record t := {
  google_sub : option string;
  email : option string;
  name : option string;
  photo_url : option string;
}.
End Identity.

(** The SQLAlchemy session: both tables in primary-key order and the two
    auto-increment counters. *)
Record Session := {
  users : list User.t;
  snapshots : list PedigreeSnapshot.t;
  next_user_id : Z;
  next_snapshot_id : Z;
}.

(** Calls that leave the process. *)
Inductive outbound :=
  | Userinfo (access_token : string)
  | VerifyOAuth2Token (id_token audience : string).

Record world := {
  heap : gmap loc json;
  db : Session;
  calls : list outbound;
}.

Definition set_heap (h : gmap loc json) (w : world) : world :=
  {| heap := h; db := db w; calls := calls w |}.

Definition set_db (d : Session) (w : world) : world :=
  {| heap := heap w; db := d; calls := calls w |}.

Definition log_call (c : outbound) (w : world) : world :=
  {| heap := heap w; db := db w; calls := calls w ++ [c] |}.

(* ===================================================================== *)
(** ** Exceptions and the monad *)
(* ===================================================================== *)

Inductive exn :=
  | HTTPException (status_code : Z) (detail : string)
  | ValueError (msg : string)
  | TypeError
  | AttributeError
  | ValidationError
  (** raised inside a library: [binascii.Error], [BadGzipFile],
      [UnicodeDecodeError], [JSONDecodeError], a failed token check *)
  | LibraryError (origin : string)
  (** not a Python exception: a reference to an object that was never
      allocated, which no Python program can hold *)
  | Dangling (l : loc).

Inductive result (A : Type) :=
  | Return (a : A)
  | Raise (e : exn).
Arguments Return {A} a.
Arguments Raise {A} e.

Definition M (A : Type) : Type := world → result A * world.

Definition ret {A} (a : A) : M A := λ w, (Return a, w).

Definition bind {A B} (m : M A) (k : A → M B) : M B :=
  λ w, match m w with
       | (Return a, w') => k a w'
       | (Raise e, w') => (Raise e, w')
       end.

Definition raise {A} (e : exn) : M A := λ w, (Raise e, w).

(** [try: body  except ...: handler]; a handler that does not match
    re-raises. *)
Definition try_except {A} (body : M A) (handler : exn → M A) : M A :=
  λ w, match body w with
       | (Return a, w') => (Return a, w')
       | (Raise e, w') => handler e w'
       end.

Declare Scope py_scope.
Delimit Scope py_scope with py.
Notation "x <- m ;; k" := (bind m (λ x, k))
  (at level 100, m at next level, right associativity) : py_scope.
Notation "m ;;; k" := (bind m (λ _, k))
  (at level 100, right associativity) : py_scope.
Open Scope py_scope.

(** [for x in l: body x] *)
Fixpoint for_each {A} (l : list A) (body : A → M unit) : M unit :=
  match l with
  | [] => ret tt
  | x :: l' => body x ;;; for_each l' body
  end.

(* ===================================================================== *)
(** ** Object store primitives *)
(* ===================================================================== *)

(** A new object; its reference is one the store does not use yet. *)
Definition alloc (v : json) : M loc :=
  λ w, let l := fresh (dom (heap w)) in
       (Return l, set_heap (<[l := v]> (heap w)) w).

Definition deref (l : loc) : M json :=
  λ w, match heap w !! l with
       | Some v => (Return v, w)
       | None => (Raise (Dangling l), w)
       end.

(** [copy.deepcopy(d)] of a dictionary: a new object with equal contents. *)
Definition deepcopy (d : gmap string json) : M loc := alloc (JObj d).

(** [for x in obj]: the elements of a list, the keys of a dictionary, the
    characters of a string; the other JSON values are not iterable. A
    dictionary is a finite map: the order in which its keys come is the
    map's, not the insertion order. *)
Definition iterate (obj : loc) : M (list json) :=
  v <- deref obj ;;
  match v with
  | JArr items => ret items
  | JObj members => ret (JStr <$> (map_to_list members).*1)
  | JStr s => ret (JStr <$> characters s)
  | _ => raise TypeError
  end.

(** [obj.items()]; only a dictionary has the method. *)
Definition items (obj : loc) : M (list (string * json)) :=
  v <- deref obj ;;
  match v with
  | JObj members => ret (map_to_list members)
  | _ => raise AttributeError
  end.

(** [d.pop(key, None)] on a dictionary with string keys: lists and
    dictionaries are unhashable; a hashable key that is not a string equals
    no key of [d]. *)
Definition pop (d : loc) (key : json) : M unit :=
  v <- deref d ;;
  match v, key with
  | JObj _, (JArr _ | JObj _) => raise TypeError
  | JObj members, JStr k => λ w, (Return tt, set_heap (<[d := JObj (delete k members)]> (heap w)) w)
  | JObj _, _ => ret tt
  | _, _ => raise AttributeError
  end.

(** [d[key] = value] *)
Definition setitem (d : loc) (key : string) (value : json) : M unit :=
  v <- deref d ;;
  match v with
  | JObj members => λ w, (Return tt, set_heap (<[d := JObj (<[key := value]> members)]> (heap w)) w)
  | _ => raise TypeError
  end.

(** The state of the session, as the queries see it. *)
Definition session : M Session := λ w, (Return (db w), w).

(** [db.add(...)], [db.delete(...)] or attribute assignments followed by
    [db.commit()] and [db.refresh(...)]: the pending rows become the table.
    The database server is outside the package; the session takes every
    commit, and the statements say which property of the table they rely on
    or preserve. *)
Definition commit (d : Session) : M unit := λ w, (Return tt, set_db d w).

(** The row that [query.filter(...).first()] returned is an object of the
    session: assigning to its attributes changes that row and no other. *)
Fixpoint update_first {A} (p : A → bool) (f : A → A) (l : list A) : list A :=
  match l with
  | [] => []
  | x :: l' => if p x then f x :: l' else x :: update_first p f l'
  end.

(** [db.delete(row)] for the row that [first()] returned. *)
Fixpoint remove_first {A} (p : A → bool) (l : list A) : list A :=
  match l with
  | [] => []
  | x :: l' => if p x then l' else x :: remove_first p l'
  end.

(* ===================================================================== *)
(** ** crud.py *)
(* ===================================================================== *)

(** The claims of a verified token or of the userinfo document, read with
    [.get("sub")], [.get("email")], [.get("name")], [.get("picture")]. The
    provider sends strings. *)
Module Claims.
Record t := {
  sub : option string;
  email : option string;
  name : option string;
  picture : option string;
}.
End Claims.

(** What [urlopen] on the userinfo endpoint followed by
    [json.loads(resp.read().decode("utf-8"))] comes to: a non-2xx answer, any
    other failure (transport, time-out, a body that is not a UTF-8 JSON
    object), or the claims. *)
Inductive userinfo_reply :=
  | HTTPError
  | OtherFailure
  | UserinfoClaims (c : Claims.t).

Section Crud.

Variable settings : Settings.t.

(** [google.oauth2.id_token.verify_oauth2_token(token, request, audience)];
    [None] when it raises. *)
Variable verify_oauth2_token : string → string → option Claims.t.

(** The provider's userinfo endpoint, by access token. *)
Variable urlopen_userinfo : string → userinfo_reply.

Definition verify_google_identity (payload : GoogleLoginRequest.t) : M Identity.t :=
  let dev_fallback :=
    (* Local/dev fallback when id_token verification is unavailable *)
    ret {| Identity.google_sub := GoogleLoginRequest.google_sub payload;
           Identity.email := GoogleLoginRequest.email payload;
           Identity.name := GoogleLoginRequest.name payload;
           Identity.photo_url := GoogleLoginRequest.photo_url payload |} in
  match GoogleLoginRequest.id_token payload, Settings.google_client_id settings with
  | Some id_token, Some client_id =>
      if negb (falsy (Some id_token)) && negb (falsy (Some client_id)) then
        λ w, let w' := log_call (VerifyOAuth2Token id_token client_id) w in
             match verify_oauth2_token id_token client_id with
             | Some token_info =>
                 (Return {| Identity.google_sub := Claims.sub token_info;
                            Identity.email := Claims.email token_info;
                            Identity.name := Claims.name token_info;
                            Identity.photo_url := Claims.picture token_info |}, w')
             | None => (Raise (LibraryError "verify_oauth2_token"), w')
             end
      else dev_fallback
  | _, _ => dev_fallback
  end.

Definition verify_google_access_token (access_token : string) : M Identity.t :=
  λ w, let w' := log_call (Userinfo access_token) w in
       match urlopen_userinfo access_token with
       | UserinfoClaims data =>
           (Return {| Identity.google_sub := Claims.sub data;
                      Identity.email := Claims.email data;
                      Identity.name := Claims.name data;
                      Identity.photo_url := Claims.picture data |}, w')
       | HTTPError => (Raise (ValueError "invalid_google_access_token"), w')
       | OtherFailure => (Raise (ValueError "google_access_token_verify_failed"), w')
       end.

End Crud.

Definition has_google_sub (google_sub : option string) (u : User.t) : bool :=
  bool_decide (User.google_sub u = google_sub).

Definition upsert_user (identity : Identity.t) : M User.t :=
  d <- session ;;
  match find (has_google_sub (Identity.google_sub identity)) (users d) with
  | Some user =>
      let user' := {| User.id := User.id user;
                      User.google_sub := User.google_sub user;
                      User.email := Identity.email identity;
                      User.name := Identity.name identity;
                      User.photo_url := Identity.photo_url identity |} in
      commit {| users := update_first (has_google_sub (Identity.google_sub identity))
                           (λ _, user') (users d);
                snapshots := snapshots d;
                next_user_id := next_user_id d;
                next_snapshot_id := next_snapshot_id d |} ;;;
      ret user'
  | None =>
      let user := {| User.id := next_user_id d;
                     User.google_sub := Identity.google_sub identity;
                     User.email := Identity.email identity;
                     User.name := Identity.name identity;
                     User.photo_url := Identity.photo_url identity |} in
      commit {| users := users d ++ [user];
                snapshots := snapshots d;
                next_user_id := next_user_id d + 1;
                next_snapshot_id := next_snapshot_id d |} ;;;
      ret user
  end.

Definition get_user_by_google_sub (google_sub : string) : M (option User.t) :=
  d <- session ;;
  ret (find (has_google_sub (Some google_sub)) (users d)).

Definition of_user (user_id : Z) (s : PedigreeSnapshot.t) : bool :=
  bool_decide (PedigreeSnapshot.user_id s = user_id).

Definition get_snapshot (user_id : Z) : M (option PedigreeSnapshot.t) :=
  d <- session ;;
  ret (find (of_user user_id) (snapshots d)).

Definition upsert_snapshot (user_id : Z) (people_by_id : loc) : M PedigreeSnapshot.t :=
  snapshot <- get_snapshot user_id ;;
  match snapshot with
  | Some snapshot =>
      let snapshot' := {| PedigreeSnapshot.id := PedigreeSnapshot.id snapshot;
                          PedigreeSnapshot.user_id := PedigreeSnapshot.user_id snapshot;
                          PedigreeSnapshot.people_json := people_by_id |} in
      d <- session ;;
      commit {| users := users d;
                snapshots := update_first (of_user user_id) (λ _, snapshot') (snapshots d);
                next_user_id := next_user_id d;
                next_snapshot_id := next_snapshot_id d |} ;;;
      ret snapshot'
  | None =>
      d <- session ;;
      let snapshot := {| PedigreeSnapshot.id := next_snapshot_id d;
                         PedigreeSnapshot.user_id := user_id;
                         PedigreeSnapshot.people_json := people_by_id |} in
      commit {| users := users d;
                snapshots := snapshots d ++ [snapshot];
                next_user_id := next_user_id d;
                next_snapshot_id := next_snapshot_id d + 1 |} ;;;
      ret snapshot
  end.

Definition delete_snapshot (user_id : Z) : M bool :=
  snapshot <- get_snapshot user_id ;;
  match snapshot with
  | None => ret false
  | Some _ =>
      d <- session ;;
      commit {| users := users d;
                snapshots := remove_first (of_user user_id) (snapshots d);
                next_user_id := next_user_id d;
                next_snapshot_id := next_snapshot_id d |} ;;;
      ret true
  end.

Definition apply_snapshot_patch (user_id : Z) (upserts deletes : loc) : M PedigreeSnapshot.t :=
  snapshot <- get_snapshot user_id ;;
  current <-
    match snapshot with
    | Some snapshot =>
        people_json <- deref (PedigreeSnapshot.people_json snapshot) ;;
        match people_json with
        | JObj members => deepcopy members
        | _ => alloc (JObj ∅)
        end
    | None => alloc (JObj ∅)
    end ;;
  delete_ids <- iterate deletes ;;
  for_each delete_ids (λ delete_id, pop current delete_id) ;;;
  key_values <- items upserts ;;
  for_each key_values (λ '(key, value), setitem current key value) ;;;
  upsert_snapshot user_id current.

(* ===================================================================== *)
(** ** main.py *)
(* ===================================================================== *)

(** [str.isspace] on the characters a header can carry (code points below
    256): tab to carriage return, the four separators 0x1c to 0x1f, space,
    next-line 0x85 and no-break space 0xa0. *)
Definition isspace (c : ascii) : bool :=
  let n := nat_of_ascii c in
  ((9 <=? n) && (n <=? 13) || (28 <=? n) && (n <=? 32)
   || (n =? 133) || (n =? 160))%nat.

Fixpoint lstrip (s : string) : string :=
  match s with
  | EmptyString => EmptyString
  | String c s' => if isspace c then lstrip s' else s
  end.

(** Whitespace removed at the end: [Some] of what is left, or [None] when
    the whole string is whitespace. *)
Fixpoint rstrip_aux (s : string) : option string :=
  match s with
  | EmptyString => None
  | String c s' =>
      match rstrip_aux s' with
      | Some r => Some (String c r)
      | None => if isspace c then None else Some (String c EmptyString)
      end
  end.

Definition rstrip (s : string) : string := default EmptyString (rstrip_aux s).

(** [s.strip()] *)
Definition strip (s : string) : string := rstrip (lstrip s).

(** [s.startswith(prefix)] *)
Definition startswith (s prefix : string) : bool := String.prefix prefix s.

(** [s[n:]] *)
Fixpoint slice_from (n : nat) (s : string) : string :=
  match n, s with
  | O, _ => s
  | S n', String _ s' => slice_from n' s'
  | S _, EmptyString => EmptyString
  end.

Definition extract_bearer_token (authorization : option string) : option string :=
  match authorization with
  | None => None
  | Some authorization =>
      if falsy (Some authorization) then None
      else
        let prefix := "Bearer " in
        if negb (startswith authorization prefix) then None
        else
          let token := strip (slice_from (String.length prefix) authorization) in
          if falsy (Some token) then None else Some token
  end.

(** The constructor of [SnapshotResponse]: [people_by_id] is declared
    [dict[str, Any]] and validated. *)
Definition SnapshotResponse_init (user_id : Z) (people_by_id : json) : M SnapshotResponse.t :=
  match people_by_id with
  | JObj members =>
      ret {| SnapshotResponse.user_id := user_id;
             SnapshotResponse.people_by_id := members |}
  | _ => raise ValidationError
  end.

(** A library call that may raise. *)
Definition library {A} (origin : string) (r : option A) : M A :=
  match r with
  | Some a => ret a
  | None => raise (LibraryError origin)
  end.

(** [except ValueError: raise HTTPException(401, "invalid access token")] *)
Definition except_ValueError {A} (e : exn) : M A :=
  match e with
  | ValueError _ => raise (HTTPException 401 "invalid access token")
  | _ => raise e
  end.

Section Main.

Variable settings : Settings.t.
Variable verify_oauth2_token : string → string → option Claims.t.
Variable urlopen_userinfo : string → userinfo_reply.

(** [str.encode("utf-8")], [base64.b64decode], [gzip.decompress],
    [bytes.decode("utf-8")] and [json.loads]; [None] when they raise. *)
Variable encode_utf8 : string → option bytes.
Variable b64decode : bytes → option bytes.
Variable gzip_decompress : bytes → option bytes.
Variable decode_utf8 : bytes → option string.
Variable json_loads : string → option json.

Definition get_identity_from_access_token (authorization : option string)
  : M (option Identity.t) :=
  let token := extract_bearer_token authorization in
  match token with
  | None => ret None
  | Some token =>
      if falsy (Some token) then ret None
      else
        identity <- verify_google_access_token urlopen_userinfo token ;;
        ret (Some identity)
  end.

Definition google_login (payload : GoogleLoginRequest.t)
    (authorization : option string) : M UserResponse.t :=
  identity <- try_except (get_identity_from_access_token authorization)
                except_ValueError ;;
  identity <-
    match identity with
    | Some identity => ret identity
    | None =>
        try_except (verify_google_identity settings verify_oauth2_token payload)
          (λ _, raise (HTTPException 401 "invalid id token"))
    end ;;
  if falsy (Identity.google_sub identity) || falsy (Identity.email identity)
  then raise (HTTPException 400 "google_sub/email is required")
  else
    user <- upsert_user identity ;;
    ret {| UserResponse.id := User.id user;
           UserResponse.google_sub := User.google_sub user;
           UserResponse.email := User.email user;
           UserResponse.name := User.name user;
           UserResponse.photo_url := User.photo_url user |}.

Definition get_pedigree (google_sub : string) (authorization : option string)
  : M SnapshotResponse.t :=
  identity <- try_except (get_identity_from_access_token authorization)
                except_ValueError ;;
  match identity with
  | None => raise (HTTPException 401 "access token is required")
  | Some identity =>
      if negb (bool_decide (Identity.google_sub identity = Some google_sub))
      then raise (HTTPException 403 "forbidden")
      else
        user <- get_user_by_google_sub google_sub ;;
        match user with
        | None => raise (HTTPException 404 "user not found")
        | Some user =>
            snapshot <- get_snapshot (User.id user) ;;
            people_by_id <-
              match snapshot with
              | Some snapshot => deref (PedigreeSnapshot.people_json snapshot)
              | None => ret (JObj ∅)
              end ;;
            SnapshotResponse_init (User.id user) people_by_id
        end
  end.

Definition put_pedigree (google_sub : string) (payload : SnapshotUpsertRequest.t)
    (authorization : option string) : M SnapshotResponse.t :=
  identity <- try_except (get_identity_from_access_token authorization)
                except_ValueError ;;
  match identity with
  | None => raise (HTTPException 401 "access token is required")
  | Some identity =>
      if negb (bool_decide (Identity.google_sub identity = Some google_sub))
      then raise (HTTPException 403 "forbidden")
      else
        user <- get_user_by_google_sub google_sub ;;
        match user with
        | None => raise (HTTPException 404 "user not found")
        | Some user =>
            people_by_id <- alloc (JObj (SnapshotUpsertRequest.people_by_id payload)) ;;
            snapshot <- upsert_snapshot (User.id user) people_by_id ;;
            people_json <- deref (PedigreeSnapshot.people_json snapshot) ;;
            SnapshotResponse_init (User.id user) people_json
        end
  end.

Definition remove_pedigree (google_sub : string) (authorization : option string)
  : M bool :=
  identity <- try_except (get_identity_from_access_token authorization)
                except_ValueError ;;
  match identity with
  | None => raise (HTTPException 401 "access token is required")
  | Some identity =>
      if negb (bool_decide (Identity.google_sub identity = Some google_sub))
      then raise (HTTPException 403 "forbidden")
      else
        user <- get_user_by_google_sub google_sub ;;
        match user with
        | None => raise (HTTPException 404 "user not found")
        | Some user => delete_snapshot (User.id user)
        end
  end.

(** Lines 202 to 207 of [patch_pedigree], the body of its [try]. *)
Definition decode_compressed (payload_b64 : string) : M (loc * loc) :=
  encoded <- library "encode" (encode_utf8 payload_b64) ;;
  raw <- library "b64decode" (b64decode encoded) ;;
  decompressed <- library "gzip.decompress" (gzip_decompress raw) ;;
  decoded <- library "decode" (decode_utf8 decompressed) ;;
  body <- library "json.loads" (json_loads decoded) ;;
  match body with
  | JObj members =>
      upserts <- alloc (default (JObj ∅) (members !! "upserts")) ;;
      deletes <- alloc (default (JArr []) (members !! "deletes")) ;;
      ret (upserts, deletes)
  | _ => raise AttributeError
  end.

Definition patch_pedigree (google_sub : string) (payload : SnapshotPatchRequest.t)
    (authorization : option string) : M SnapshotResponse.t :=
  identity <- try_except (get_identity_from_access_token authorization)
                except_ValueError ;;
  match identity with
  | None => raise (HTTPException 401 "access token is required")
  | Some identity =>
      if negb (bool_decide (Identity.google_sub identity = Some google_sub))
      then raise (HTTPException 403 "forbidden")
      else
        user <- get_user_by_google_sub google_sub ;;
        match user with
        | None => raise (HTTPException 404 "user not found")
        | Some user =>
            upserts <- alloc (JObj (SnapshotPatchRequest.upserts payload)) ;;
            deletes <- alloc (JArr (JStr <$> SnapshotPatchRequest.deletes payload)) ;;
            effective <-
              (if SnapshotPatchRequest.compressed payload then
                 match SnapshotPatchRequest.payload_b64 payload with
                 | Some payload_b64 =>
                     if falsy (Some payload_b64)
                     then raise (HTTPException 400 "payload_b64 is required when compressed")
                     else
                       try_except (decode_compressed payload_b64)
                         (λ _, raise (HTTPException 400 "invalid compressed payload"))
                 | None => raise (HTTPException 400 "payload_b64 is required when compressed")
                 end
               else ret (upserts, deletes)) ;;
            let '(upserts, deletes) := effective in
            snapshot <- apply_snapshot_patch (User.id user) upserts deletes ;;
            people_json <- deref (PedigreeSnapshot.people_json snapshot) ;;
            SnapshotResponse_init (User.id user) people_json
        end
  end.

(** *** Vocabulary of the statements about the handlers *)

(** The [try] statement that opens every handler. *)
Definition authenticate (authorization : option string) : M (option Identity.t) :=
  try_except (get_identity_from_access_token authorization) except_ValueError.

(** The decode stages of a compressed payload, in order; [None] when one of
    them fails. *)
Definition decoded_body (payload_b64 : string) : option json :=
  encoded ← encode_utf8 payload_b64;
  raw ← b64decode encoded;
  decompressed ← gzip_decompress raw;
  decoded ← decode_utf8 decompressed;
  json_loads decoded.

(** A failure at some stage of the decoding; the last one is [body.get] on a
    JSON value that is not an object. *)
Inductive decode_failure (payload_b64 : string) : Prop :=
  | bad_encode :
      encode_utf8 payload_b64 = None → decode_failure payload_b64
  | bad_base64 encoded :
      encode_utf8 payload_b64 = Some encoded →
      b64decode encoded = None → decode_failure payload_b64
  | bad_gzip encoded raw :
      encode_utf8 payload_b64 = Some encoded →
      b64decode encoded = Some raw →
      gzip_decompress raw = None → decode_failure payload_b64
  | bad_utf8 encoded raw decompressed :
      encode_utf8 payload_b64 = Some encoded →
      b64decode encoded = Some raw →
      gzip_decompress raw = Some decompressed →
      decode_utf8 decompressed = None → decode_failure payload_b64
  | bad_json encoded raw decompressed decoded :
      encode_utf8 payload_b64 = Some encoded →
      b64decode encoded = Some raw →
      gzip_decompress raw = Some decompressed →
      decode_utf8 decompressed = Some decoded →
      json_loads decoded = None → decode_failure payload_b64
  | not_an_object body :
      decoded_body payload_b64 = Some body →
      is_dict body = false → decode_failure payload_b64.

End Main.

(* ===================================================================== *)
(** ** Vocabulary of the statements *)
(* ===================================================================== *)

(** What the first loop leaves of a dictionary. *)
Definition without (Del : list string) (d : gmap string json) : gmap string json :=
  foldl (λ m k, delete k m) d Del.

(** What the second loop makes of a dictionary. *)
Definition overwritten (kvs : list (string * json)) (d : gmap string json)
  : gmap string json :=
  foldl (λ m kv, <[kv.1 := kv.2]> m) d kvs.

(** The document of an account as the data model has it: the dictionary of
    its snapshot row, or the empty map when it has no row. *)
Inductive stored (w : world) (user_id : Z) : gmap string json → Prop :=
  | stored_row snapshot D :
      find (of_user user_id) (snapshots (db w)) = Some snapshot →
      heap w !! PedigreeSnapshot.people_json snapshot = Some (JObj D) →
      stored w user_id D
  | stored_none :
      find (of_user user_id) (snapshots (db w)) = None →
      stored w user_id ∅.

(** A computation that changes no object but [c]. *)
Definition only_writes {A} (c : loc) (m : M A) : Prop :=
  ∀ w l, l ≠ c → heap (m w).2 !! l = heap w !! l.

(** A computation that changes no object at all. *)
Definition writes_nothing {A} (m : M A) : Prop :=
  ∀ w, heap (m w).2 = heap w.

(** Lines 122 to 128 of [apply_snapshot_patch]: the two loops on the working
    copy [current] and the final [upsert_snapshot]. *)
Definition merge_into (user_id : Z) (upserts deletes current : loc)
  : M PedigreeSnapshot.t :=
  delete_ids <- iterate deletes ;;
  for_each delete_ids (λ delete_id, pop current delete_id) ;;;
  key_values <- items upserts ;;
  for_each key_values (λ '(key, value), setitem current key value) ;;;
  upsert_snapshot user_id current.

(** The identity that a verifier builds from the provider's claims. *)
Definition verified (c : Claims.t) : Identity.t :=
  {| Identity.google_sub := Claims.sub c;
     Identity.email := Claims.email c;
     Identity.name := Claims.name c;
     Identity.photo_url := Claims.picture c |}.

(** The identity that the caller asserts in the request body. *)
Definition asserted (payload : GoogleLoginRequest.t) : Identity.t :=
  {| Identity.google_sub := GoogleLoginRequest.google_sub payload;
     Identity.email := GoogleLoginRequest.email payload;
     Identity.name := GoogleLoginRequest.name payload;
     Identity.photo_url := GoogleLoginRequest.photo_url payload |}.

(** Lines 84 to 96 of [google_login]: the required-field check, the account
    and the response, once the identity is known. *)
Definition login_as (identity : Identity.t) : M UserResponse.t :=
  if falsy (Identity.google_sub identity) || falsy (Identity.email identity)
  then raise (HTTPException 400 "google_sub/email is required")
  else
    user <- upsert_user identity ;;
    ret {| UserResponse.id := User.id user;
           UserResponse.google_sub := User.google_sub user;
           UserResponse.email := User.email user;
           UserResponse.name := User.name user;
           UserResponse.photo_url := User.photo_url user |}.

(** An [Authorization] header that carries no bearer token: absent, not
    starting with ["Bearer "], or with nothing but whitespace after it. *)
Inductive no_token : option string → Prop :=
  | header_absent : no_token None
  | header_without_prefix h :
      startswith h "Bearer " = false → no_token (Some h)
  | header_blank rest :
      Forall (λ c, isspace c = true) (list_ascii_of_string rest) →
      no_token (Some ("Bearer " ++ rest)).

(** Lines 211 to 216 of [patch_pedigree]: the patch and the response, once
    the effective [upserts] and [deletes] are known. *)
Definition patch_response (user : User.t) (upserts deletes : loc)
  : M SnapshotResponse.t :=
  snapshot <- apply_snapshot_patch (User.id user) upserts deletes ;;
  people_json <- deref (PedigreeSnapshot.people_json snapshot) ;;
  SnapshotResponse_init (User.id user) people_json.

(* ===================================================================== *)
(** ** Sample data *)
(* ===================================================================== *)

Module Sample.

Definition alice : json := JObj {[ "name" := JStr "Alice" ]}.
Definition bob : json := JObj {[ "name" := JStr "Bob" ]}.

Definition user1 : User.t :=
  {| User.id := 1; User.google_sub := Some "sub-1";
     User.email := Some "alice@example.org"; User.name := Some "Alice";
     User.photo_url := None |}.

Definition user2 : User.t :=
  {| User.id := 2; User.google_sub := Some "sub-2";
     User.email := Some "bob@example.org"; User.name := None;
     User.photo_url := None |}.

Definition snapshot1 : PedigreeSnapshot.t :=
  {| PedigreeSnapshot.id := 1; PedigreeSnapshot.user_id := 1;
     PedigreeSnapshot.people_json := 1%positive |}.

(** The account sub-1 has the document [{"p1": alice}]; sub-2 has none.
    Objects 2 to 6 are request bodies. *)
Definition w0 : world :=
  {| heap := {[ 1%positive := JObj {[ "p1" := alice ]};
                2%positive := JObj {[ "p2" := bob ]};
                3%positive := JArr [JStr "p1"];
                4%positive := JObj ∅;
                5%positive := JArr [];
                6%positive := JObj {[ "p1" := bob ]} ]};
     db := {| users := [user1; user2];
              snapshots := [snapshot1];
              next_user_id := 3;
              next_snapshot_id := 2 |};
     calls := [] |}.

(** A provider that knows two access tokens and one identity token. *)
Definition claims1 : Claims.t :=
  {| Claims.sub := Some "sub-1"; Claims.email := Some "alice@example.org";
     Claims.name := Some "Alice"; Claims.picture := None |}.

Definition claims2 : Claims.t :=
  {| Claims.sub := Some "sub-2"; Claims.email := Some "bob@example.org";
     Claims.name := None; Claims.picture := None |}.

Definition userinfo (access_token : string) : userinfo_reply :=
  if bool_decide (access_token = "token-1") then UserinfoClaims claims1
  else if bool_decide (access_token = "token-2") then UserinfoClaims claims2
  else HTTPError.

Definition verify (id_token audience : string) : option Claims.t :=
  if bool_decide (id_token = "id-token-1") && bool_decide (audience = "client-1")
  then Some claims1 else None.

Definition production : Settings.t :=
  {| Settings.google_client_id := Some "client-1" |}.

(** Codecs that accept one envelope only. *)
Definition encode (s : string) : option bytes := Some (list_byte_of_string s).

Definition b64 (b : bytes) : option bytes :=
  if bool_decide (string_of_list_byte b = "envelope") then Some b else None.

Definition gunzip (b : bytes) : option bytes := Some b.

Definition decode (b : bytes) : option string := Some (string_of_list_byte b).

Definition loads (s : string) : option json :=
  if bool_decide (s = "envelope")
  then Some (JObj {[ "upserts" := JObj {[ "p2" := bob ]};
                     "deletes" := JArr [JStr "p1"] ]})
  else None.

(** A body that asserts the subject of account 1 and carries no identity
    token. *)
Definition forged : GoogleLoginRequest.t :=
  {| GoogleLoginRequest.id_token := None;
     GoogleLoginRequest.google_sub := Some "sub-1";
     GoogleLoginRequest.email := Some "mallory@example.org";
     GoogleLoginRequest.name := None;
     GoogleLoginRequest.photo_url := None |}.

(** A body with the identity token that the provider accepts. *)
Definition with_id_token : GoogleLoginRequest.t :=
  {| GoogleLoginRequest.id_token := Some "id-token-1";
     GoogleLoginRequest.google_sub := None;
     GoogleLoginRequest.email := None;
     GoogleLoginRequest.name := None;
     GoogleLoginRequest.photo_url := None |}.


(** A compressed patch whose outer fields differ from the envelope's. *)
Definition compressed_patch : SnapshotPatchRequest.t :=
  {| SnapshotPatchRequest.upserts := {[ "p9" := alice ]};
     SnapshotPatchRequest.deletes := ["p8"];
     SnapshotPatchRequest.compressed := true;
     SnapshotPatchRequest.payload_b64 := Some "envelope" |}.

Definition replacement : SnapshotUpsertRequest.t :=
  {| SnapshotUpsertRequest.people_by_id := {[ "p2" := bob ]} |}.

(** The patch of the end-to-end example, sent inline. *)
Definition inline_patch : SnapshotPatchRequest.t :=
  {| SnapshotPatchRequest.upserts := {[ "p2" := bob ]};
     SnapshotPatchRequest.deletes := ["p1"];
     SnapshotPatchRequest.compressed := false;
     SnapshotPatchRequest.payload_b64 := None |}.

(** A compressed patch whose envelope the codecs reject. *)
Definition corrupt_patch : SnapshotPatchRequest.t :=
  {| SnapshotPatchRequest.upserts := ∅;
     SnapshotPatchRequest.deletes := [];
     SnapshotPatchRequest.compressed := true;
     SnapshotPatchRequest.payload_b64 := Some "envelopf" |}.

End Sample.

(* ===================================================================== *)
(** ** Vocabulary of the statements about the rest of the package *)
(* ===================================================================== *)

(** Every snapshot row holds a dictionary object: what [people_json] is
    declared to be in [models.py]. *)
Definition well_formed (w : world) : Prop :=
  ∀ snapshot, snapshot ∈ snapshots (db w) →
    ∃ D, heap w !! PedigreeSnapshot.people_json snapshot = Some (JObj D).

(** The unique index on [pedigree_snapshots.user_id]. *)
Definition one_snapshot_per_account (w : world) : Prop :=
  NoDup (PedigreeSnapshot.user_id <$> snapshots (db w)).

(** A property of the world that a computation keeps, whatever it returns
    or raises. *)
Definition preserves {A} (I : world → Prop) (m : M A) : Prop :=
  ∀ w, I w → I (m w).2.

(** Since [w0]: the same session and outbound calls, no object changed
    but [c], and [c] a dictionary. *)
Definition working_on (c : loc) (w0 w : world) : Prop :=
  db w = db w0 ∧ calls w = calls w0
  ∧ (∃ d, heap w !! c = Some (JObj d))
  ∧ (∀ l, l ≠ c → heap w !! l = heap w0 !! l).

(** A string of whitespace only. *)
Definition whitespace (s : string) : Prop :=
  Forall (λ c, isspace c = true) (list_ascii_of_string s).

Definition starts_with_space (s : string) : bool :=
  match s with
  | EmptyString => false
  | String c _ => isspace c
  end.

Fixpoint ends_with_space (s : string) : bool :=
  match s with
  | EmptyString => false
  | String c EmptyString => isspace c
  | String _ s' => ends_with_space s'
  end.


(** The errors of the owner check that opens the pedigree handlers. *)
Definition access_error (e : exn) : Prop :=
  e = HTTPException 401 "invalid access token"
  ∨ e = HTTPException 401 "access token is required"
  ∨ e = HTTPException 403 "forbidden"
  ∨ e = HTTPException 404 "user not found".

(** Lines 105 to 116 of [get_pedigree], which open the other pedigree
    handlers too: the access token, the owner check and the account
    look-up, before the handler's own work [k]. *)
Definition owner_checked {A} (urlopen_userinfo : string → userinfo_reply)
    (google_sub : string) (authorization : option string) (k : User.t → M A)
  : M A :=
  identity <- authenticate urlopen_userinfo authorization ;;
  match identity with
  | None => raise (HTTPException 401 "access token is required")
  | Some identity =>
      if negb (bool_decide (Identity.google_sub identity = Some google_sub))
      then raise (HTTPException 403 "forbidden")
      else
        user <- get_user_by_google_sub google_sub ;;
        match user with
        | None => raise (HTTPException 404 "user not found")
        | Some user => k user
        end
  end.

Module Cases.

(** Account 1's column holds a JSON list; object 3 is a string and object 4
    a list with a list in it. *)
Definition w1 : world :=
  {| heap := {[ 1%positive := JArr [JStr "p1"];
                2%positive := JObj {[ "p2" := Sample.bob ]};
                3%positive := JStr "ab";
                4%positive := JArr [JArr []];
                5%positive := JArr [] ]};
     db := {| users := [Sample.user1; Sample.user2];
              snapshots := [Sample.snapshot1];
              next_user_id := 3;
              next_snapshot_id := 2 |};
     calls := [] |}.

(** Account 1 holds [{"a": alice, "b": bob, "ab": alice}]. *)
Definition w2 : world :=
  {| heap := {[ 1%positive := JObj {[ "a" := Sample.alice; "b" := Sample.bob;
                                      "ab" := Sample.alice ]};
                2%positive := JObj ∅;
                3%positive := JStr "ab" ]};
     db := {| users := [Sample.user1; Sample.user2];
              snapshots := [Sample.snapshot1];
              next_user_id := 3;
              next_snapshot_id := 2 |};
     calls := [] |}.


(** A body with an identity token that the provider rejects, asserting the
    subject of account 1. *)
Definition bad_id_token : GoogleLoginRequest.t :=
  {| GoogleLoginRequest.id_token := Some "id-token-0";
     GoogleLoginRequest.google_sub := Some "sub-1";
     GoogleLoginRequest.email := Some "mallory@example.org";
     GoogleLoginRequest.name := None;
     GoogleLoginRequest.photo_url := None |}.

(** A provider that knows a third subject, which has no account yet. *)
Definition claims3 : Claims.t :=
  {| Claims.sub := Some "sub-3"; Claims.email := Some "carol@example.org";
     Claims.name := Some "Carol"; Claims.picture := None |}.

Definition userinfo (access_token : string) : userinfo_reply :=
  if bool_decide (access_token = "token-3") then UserinfoClaims claims3
  else Sample.userinfo access_token.

End Cases.

(* ===================================================================== *)
(** * Properties *)
(* ===================================================================== *)

(** ** The monad *)

Lemma bind_Return {A B} (m : M A) (k : A → M B) w a w' :
  m w = (Return a, w') → bind m k w = k a w'.
Proof. intros E. unfold bind. by rewrite E. Qed.

Lemma bind_Raise {A B} (m : M A) (k : A → M B) w e w' :
  m w = (Raise e, w') → bind m k w = (Raise e, w').
Proof. intros E. unfold bind. by rewrite E. Qed.

Lemma set_heap_id w : set_heap (heap w) w = w.
Proof. by destruct w. Qed.

Lemma set_heap_set_heap h1 h2 w : set_heap h2 (set_heap h1 w) = set_heap h2 w.
Proof. done. Qed.

(** ** The two loops of [apply_snapshot_patch] *)

Lemma lookup_without Del d k :
  without Del d !! k = if decide (k ∈ Del) then None else d !! k.
Proof.
  unfold without. revert d. induction Del as [|k' Del IH]; intros d.
  - destruct (decide (k ∈ [])) as [H|_]; [by apply elem_of_nil in H | done].
  - cbn [foldl]. rewrite IH.
    destruct (decide (k ∈ Del)) as [H1|H1];
      destruct (decide (k ∈ k' :: Del)) as [H2|H2]; try done.
    + exfalso. apply H2. by right.
    + apply elem_of_cons in H2. destruct H2 as [->|?]; [|done].
      apply lookup_delete_eq.
    + apply lookup_delete_ne. intros ->. apply H2. by left.
Qed.

Lemma overwritten_union kvs d :
  NoDup kvs.*1 → overwritten kvs d = list_to_map kvs ∪ d.
Proof.
  unfold overwritten. revert d.
  induction kvs as [|[k v] kvs IH]; intros d Hnd.
  - cbn. by rewrite (left_id_L ∅ (∪)).
  - rewrite fmap_cons in Hnd. apply NoDup_cons in Hnd as [Hk Hnd].
    cbn [foldl list_to_map foldr fst snd uncurry]. rewrite IH by done.
    rewrite <- insert_union_l. symmetry. apply insert_union_r.
    by apply not_elem_of_list_to_map_1.
Qed.

Lemma overwritten_items U d : overwritten (map_to_list U) d = U ∪ d.
Proof.
  rewrite overwritten_union by apply NoDup_fst_map_to_list.
  by rewrite list_to_map_to_list.
Qed.

Lemma for_each_pop c Del : ∀ d w,
  heap w !! c = Some (JObj d) →
  for_each (JStr <$> Del) (λ delete_id, pop c delete_id) w
  = (Return tt, set_heap (<[c := JObj (without Del d)]> (heap w)) w).
Proof.
  induction Del as [|k Del IH]; intros d w Hc; simpl.
  - unfold ret. by rewrite insert_id, set_heap_id.
  - unfold bind at 1. unfold pop at 1, bind, deref. rewrite Hc. simpl.
    rewrite (IH (delete k d)) by (simpl; apply lookup_insert_eq).
    simpl. by rewrite set_heap_set_heap, insert_insert_eq.
Qed.

Lemma for_each_setitem c kvs : ∀ d w,
  heap w !! c = Some (JObj d) →
  for_each kvs (λ '(key, value), setitem c key value) w
  = (Return tt, set_heap (<[c := JObj (overwritten kvs d)]> (heap w)) w).
Proof.
  induction kvs as [|[k v] kvs IH]; intros d w Hc; simpl.
  - unfold ret. by rewrite insert_id, set_heap_id.
  - unfold bind at 1. unfold setitem at 1, bind, deref. rewrite Hc. simpl.
    rewrite (IH (<[k := v]> d)) by (simpl; apply lookup_insert_eq).
    simpl. by rewrite set_heap_set_heap, insert_insert_eq.
Qed.

(** ** The snapshot store *)

Lemma fresh_ne (w : world) l v :
  heap w !! l = Some v → l ≠ fresh (dom (heap w)).
Proof.
  intros Hl ->. apply (is_fresh (dom (heap w))).
  apply elem_of_dom. by exists v.
Qed.

Lemma lookup_alloc_old (w : world) l v x :
  heap w !! l = Some v → <[fresh (dom (heap w)) := x]> (heap w) !! l = Some v.
Proof.
  intros Hl. rewrite lookup_insert_ne; [done|].
  apply not_eq_sym. by eapply fresh_ne.
Qed.

Lemma find_update_first {A} (p : A → bool) (f : A → A) l x :
  find p l = Some x → p (f x) = true → find p (update_first p f l) = Some (f x).
Proof.
  induction l as [|y l IH]; simpl; [done|].
  destruct (p y) eqn:Hy.
  - intros [= ->] Hf. simpl. by rewrite Hf.
  - intros Hx Hf. simpl. rewrite Hy. by apply IH.
Qed.

Lemma find_app_None {A} (p : A → bool) l x :
  find p l = None → p x = true → find p (l ++ [x]) = Some x.
Proof.
  induction l as [|y l IH]; simpl.
  - intros _ ->. done.
  - destruct (p y); [done|]. apply IH.
Qed.

Lemma find_of_user uid l s :
  find (of_user uid) l = Some s → PedigreeSnapshot.user_id s = uid.
Proof.
  intros H. apply find_some in H as [_ H].
  unfold of_user in H. by apply bool_decide_eq_true in H.
Qed.

(** [upsert_snapshot] returns the account's row, now holding the reference it
    was given; it touches neither the objects nor the accounts. *)
Lemma upsert_snapshot_spec uid c w :
  ∃ snapshot w',
    upsert_snapshot uid c w = (Return snapshot, w')
    ∧ PedigreeSnapshot.people_json snapshot = c
    ∧ PedigreeSnapshot.user_id snapshot = uid
    ∧ find (of_user uid) (snapshots (db w')) = Some snapshot
    ∧ heap w' = heap w
    ∧ calls w' = calls w
    ∧ users (db w') = users (db w).
Proof.
  unfold upsert_snapshot, get_snapshot, session, commit, bind, ret. simpl.
  destruct (find (of_user uid) (snapshots (db w))) as [s|] eqn:Hs; simpl.
  - eexists _, _. split; [done|]. simpl.
    pose proof (find_of_user _ _ _ Hs) as Hu.
    repeat split; try done.
    apply (find_update_first _ (λ _, _) _ s Hs).
    unfold of_user. simpl. by apply bool_decide_eq_true.
  - eexists _, _. split; [done|]. simpl. repeat split; try done.
    apply find_app_None; [done|].
    unfold of_user. simpl. by apply bool_decide_eq_true.
Qed.

(** The patch of a stored document is a replacement by the merged document,
    built in an object of its own. *)
Lemma apply_snapshot_patch_merge w uid ups dels U Del D :
  stored w uid D →
  heap w !! ups = Some (JObj U) →
  heap w !! dels = Some (JArr (JStr <$> Del)) →
  apply_snapshot_patch uid ups dels w
  = upsert_snapshot uid (fresh (dom (heap w)))
      (set_heap (<[fresh (dom (heap w)) := JObj (U ∪ without Del D)]> (heap w)) w).
Proof.
  intros HD Hups Hdels.
  set (c := fresh (dom (heap w))).
  set (w1 := set_heap (<[c := JObj D]> (heap w)) w).
  assert (heap w1 !! c = Some (JObj D)) as Hc by apply lookup_insert_eq.
  assert (get_snapshot uid w = (Return (find (of_user uid) (snapshots (db w))), w))
    as Hget by done.
  unfold apply_snapshot_patch.
  rewrite (bind_Return _ _ _ _ _ Hget).
  assert ((match find (of_user uid) (snapshots (db w)) with
           | Some snapshot =>
               people_json <- deref (PedigreeSnapshot.people_json snapshot) ;;
               match people_json with
               | JObj members => deepcopy members
               | _ => alloc (JObj ∅)
               end
           | None => alloc (JObj ∅)
           end) w = (Return c, w1)) as Hload.
  { destruct HD as [s D Hs HsD | Hs]; rewrite Hs; [|done].
    unfold bind, deref. by rewrite HsD. }
  rewrite (bind_Return _ _ _ _ _ Hload).
  assert (iterate dels w1 = (Return (JStr <$> Del), w1)) as Hiter.
  { unfold iterate, bind, deref. simpl.
    by rewrite (lookup_alloc_old w dels _ _ Hdels). }
  rewrite (bind_Return _ _ _ _ _ Hiter).
  rewrite (bind_Return _ _ _ _ _ (for_each_pop c Del D w1 Hc)).
  set (w2 := set_heap _ w1).
  assert (heap w2 !! c = Some (JObj (without Del D))) as Hc2
    by apply lookup_insert_eq.
  assert (items ups w2 = (Return (map_to_list U), w2)) as Hitems.
  { unfold items, bind, deref. simpl.
    rewrite lookup_insert_ne by (apply not_eq_sym; by eapply fresh_ne).
    by rewrite (lookup_alloc_old w ups _ _ Hups). }
  rewrite (bind_Return _ _ _ _ _ Hitems).
  rewrite (bind_Return _ _ _ _ _ (for_each_setitem c _ _ w2 Hc2)).
  rewrite overwritten_items. subst w2 w1. simpl.
  unfold set_heap. simpl. by rewrite !insert_insert_eq.
Qed.

(** ** Which objects a computation writes *)

Lemma writes_nothing_only {A} c (m : M A) : writes_nothing m → only_writes c m.
Proof. intros H w l _. by rewrite H. Qed.

Lemma only_writes_bind {A B} c (m : M A) (k : A → M B) :
  only_writes c m → (∀ a, only_writes c (k a)) → only_writes c (bind m k).
Proof.
  intros Hm Hk w l Hl. unfold bind.
  specialize (Hm w l Hl). destruct (m w) as [[a|e] w1]; simpl in *; [|done].
  by rewrite Hk.
Qed.

Lemma writes_nothing_bind {A B} (m : M A) (k : A → M B) :
  writes_nothing m → (∀ a, writes_nothing (k a)) → writes_nothing (bind m k).
Proof.
  intros Hm Hk w. unfold bind.
  specialize (Hm w). destruct (m w) as [[a|e] w1]; simpl in *; [|done].
  by rewrite Hk.
Qed.

Lemma writes_nothing_ret {A} (a : A) : writes_nothing (ret a).
Proof. done. Qed.

Lemma writes_nothing_raise {A} e : writes_nothing (@raise A e).
Proof. done. Qed.

Lemma writes_nothing_deref l : writes_nothing (deref l).
Proof. intros w. unfold deref. by destruct (heap w !! l). Qed.

Lemma writes_nothing_session : writes_nothing session.
Proof. done. Qed.

Lemma writes_nothing_commit d : writes_nothing (commit d).
Proof. done. Qed.

Lemma writes_nothing_iterate obj : writes_nothing (iterate obj).
Proof.
  apply writes_nothing_bind; [apply writes_nothing_deref|].
  by intros [].
Qed.

Lemma writes_nothing_items obj : writes_nothing (items obj).
Proof.
  apply writes_nothing_bind; [apply writes_nothing_deref|].
  by intros [].
Qed.

Lemma writes_nothing_get_snapshot uid : writes_nothing (get_snapshot uid).
Proof. done. Qed.

Lemma writes_nothing_upsert_snapshot uid c : writes_nothing (upsert_snapshot uid c).
Proof.
  intros w. destruct (upsert_snapshot_spec uid c w) as (s & w' & -> & _ & _ & _ & H & _).
  done.
Qed.

Lemma only_writes_pop c key : only_writes c (pop c key).
Proof.
  apply only_writes_bind; [apply writes_nothing_only, writes_nothing_deref|].
  intros v w l Hl.
  destruct v, key; simpl; try done; by rewrite lookup_insert_ne.
Qed.

Lemma only_writes_setitem c key value : only_writes c (setitem c key value).
Proof.
  apply only_writes_bind; [apply writes_nothing_only, writes_nothing_deref|].
  intros v w l Hl.
  destruct v; simpl; try done; by rewrite lookup_insert_ne.
Qed.

Lemma only_writes_for_each {A} c (l : list A) (body : A → M unit) :
  (∀ x, only_writes c (body x)) → only_writes c (for_each l body).
Proof.
  intros Hbody. induction l as [|x l IH]; simpl.
  - apply writes_nothing_only, writes_nothing_ret.
  - apply only_writes_bind; [apply Hbody | by intros _].
Qed.

(** Once the working copy [current] exists, the rest of
    [apply_snapshot_patch] writes to no other object. *)
Lemma only_writes_merge_into uid upserts deletes current :
  only_writes current (merge_into uid upserts deletes current).
Proof.
  apply only_writes_bind; [apply writes_nothing_only, writes_nothing_iterate|].
  intros delete_ids. apply only_writes_bind.
  { apply only_writes_for_each. intros x. apply only_writes_pop. }
  intros _. apply only_writes_bind; [apply writes_nothing_only, writes_nothing_items|].
  intros key_values. apply only_writes_bind.
  { apply only_writes_for_each. intros [k v]. apply only_writes_setitem. }
  intros _. apply writes_nothing_only, writes_nothing_upsert_snapshot.
Qed.

Lemma merge_into_returns_current uid upserts deletes current w snapshot w' :
  merge_into uid upserts deletes current w = (Return snapshot, w') →
  PedigreeSnapshot.people_json snapshot = current.
Proof.
  unfold merge_into.
  unfold bind at 1. destruct (iterate deletes w) as [[ids|?] w1]; [|done].
  unfold bind at 1. destruct (for_each ids _ w1) as [[[]|?] w2]; [|done].
  unfold bind at 1. destruct (items upserts w2) as [[kvs|?] w3]; [|done].
  unfold bind at 1. destruct (for_each kvs _ w3) as [[[]|?] w4]; [|done].
  destruct (upsert_snapshot_spec uid current w4) as (s & w5 & -> & Hs & _).
  by intros [= <- _].
Qed.

(** [apply_snapshot_patch] either stops on a row whose object is missing, or
    runs the merge on a new object. *)
Lemma apply_snapshot_patch_cases uid ups dels w :
  (∃ e, apply_snapshot_patch uid ups dels w = (Raise e, w))
  ∨ (∃ v, apply_snapshot_patch uid ups dels w
          = merge_into uid ups dels (fresh (dom (heap w)))
              (set_heap (<[fresh (dom (heap w)) := v]> (heap w)) w)).
Proof.
  assert (get_snapshot uid w = (Return (find (of_user uid) (snapshots (db w))), w))
    as Hget by done.
  unfold apply_snapshot_patch. rewrite (bind_Return _ _ _ _ _ Hget).
  fold (merge_into uid ups dels).
  destruct (find (of_user uid) (snapshots (db w))) as [s|].
  - destruct (heap w !! PedigreeSnapshot.people_json s) as [pj|] eqn:Hpj.
    + right. exists (match pj with JObj members => JObj members | _ => JObj ∅ end).
      apply bind_Return. unfold bind, deref. rewrite Hpj. by destruct pj.
    + left. eexists. apply bind_Raise. unfold bind, deref. by rewrite Hpj.
  - right. exists (JObj ∅). by apply bind_Return.
Qed.

Lemma without_empty Del : without Del ∅ = ∅.
Proof.
  apply map_eq. intros k. rewrite lookup_without, lookup_empty.
  by destruct (decide (k ∈ Del)).
Qed.

(** ** The patch *)

(** C1. For every stored document [D], upsert map [U] and delete list [Del],
    [apply_snapshot_patch] returns the account's row holding the document
    [U ∪ without Del D] (all deletes, then all upserts): a key that is both
    deleted and upserted is present with the upserted value, and a key that
    is deleted and not upserted is absent. *)
Theorem apply_snapshot_patch_upsert_wins w uid ups dels U Del D :
  stored w uid D →
  heap w !! ups = Some (JObj U) →
  heap w !! dels = Some (JArr (JStr <$> Del)) →
  ∃ snapshot w' R,
    apply_snapshot_patch uid ups dels w = (Return snapshot, w')
    ∧ get_snapshot uid w' = (Return (Some snapshot), w')
    ∧ heap w' !! PedigreeSnapshot.people_json snapshot = Some (JObj R)
    ∧ R = U ∪ without Del D
    ∧ (∀ k v, k ∈ Del → U !! k = Some v → R !! k = Some v)
    ∧ (∀ k, k ∈ Del → U !! k = None → R !! k = None).
Proof.
  intros HD Hups Hdels.
  rewrite (apply_snapshot_patch_merge w uid ups dels U Del D HD Hups Hdels).
  destruct (upsert_snapshot_spec uid (fresh (dom (heap w)))
              (set_heap (<[fresh (dom (heap w)) := JObj (U ∪ without Del D)]> (heap w)) w))
    as (s & w' & Hrun & Hpj & _ & Hfind & Hheap & _).
  exists s, w', (U ∪ without Del D). split; [done|]. split.
  { unfold get_snapshot, session, bind, ret. simpl. by rewrite Hfind. }
  split.
  { rewrite Hheap, Hpj. simpl. apply lookup_insert_eq. }
  split; [done|]. split.
  - intros k v _ Hk. by apply lookup_union_Some_l.
  - intros k Hin Hk. apply lookup_union_None. split; [done|].
    rewrite lookup_without. by rewrite decide_True.
Qed.

(** C6. [apply_snapshot_patch] leaves every object that exists when it is
    called as it was: the [upserts] dictionary, the [deletes] list and the
    document of the account's row before the call are unchanged, and the
    document it stores is an object that did not exist before. *)
Theorem apply_snapshot_patch_inputs_unchanged w uid ups dels prior :
  is_Some (heap w !! ups) →
  is_Some (heap w !! dels) →
  get_snapshot uid w = (Return prior, w) →
  let out := apply_snapshot_patch uid ups dels w in
  heap out.2 !! ups = heap w !! ups
  ∧ heap out.2 !! dels = heap w !! dels
  ∧ (∀ snapshot, prior = Some snapshot →
       heap out.2 !! PedigreeSnapshot.people_json snapshot
       = heap w !! PedigreeSnapshot.people_json snapshot)
  ∧ (∀ l, is_Some (heap w !! l) → heap out.2 !! l = heap w !! l)
  ∧ (∀ snapshot, out.1 = Return snapshot →
       heap w !! PedigreeSnapshot.people_json snapshot = None).
Proof.
  intros Hups Hdels Hprior out.
  assert (∀ l, is_Some (heap w !! l) → heap out.2 !! l = heap w !! l) as Hold.
  { intros l [v Hl]. subst out.
    destruct (apply_snapshot_patch_cases uid ups dels w) as [[e ->]|[x ->]];
      [done|].
    rewrite only_writes_merge_into by (by eapply fresh_ne). simpl.
    rewrite Hl. by apply lookup_alloc_old. }
  repeat split; auto.
  - intros s ->.
    destruct (heap w !! PedigreeSnapshot.people_json s) as [pj|] eqn:Hpj.
    + rewrite <- Hpj. by apply Hold.
    + subst out. unfold apply_snapshot_patch.
      rewrite (bind_Return _ _ _ _ _ Hprior).
      erewrite bind_Raise; [done|]. unfold bind, deref. by rewrite Hpj.
  - intros s Hs. subst out.
    destruct (apply_snapshot_patch_cases uid ups dels w) as [[e He]|[x Hx]].
    + by rewrite He in Hs.
    + rewrite Hx in Hs.
      destruct (merge_into _ _ _ _ _) as [r w'] eqn:Hrun. simpl in Hs. subst r.
      rewrite (merge_into_returns_current _ _ _ _ _ _ _ Hrun).
      apply not_elem_of_dom, is_fresh.
Qed.

Lemma apply_snapshot_patch_upsert_wins_witness :
  (stored Sample.w0 1 {[ "p1" := Sample.alice ]}
   ∧ heap Sample.w0 !! 6%positive = Some (JObj {[ "p1" := Sample.bob ]})
   ∧ heap Sample.w0 !! 3%positive = Some (JArr (JStr <$> ["p1"])))
  ∧ ∃ snapshot w' R,
      apply_snapshot_patch 1 6%positive 3%positive Sample.w0 = (Return snapshot, w')
      ∧ get_snapshot 1 w' = (Return (Some snapshot), w')
      ∧ heap w' !! PedigreeSnapshot.people_json snapshot = Some (JObj R)
      ∧ R = {[ "p1" := Sample.bob ]} ∪ without ["p1"] {[ "p1" := Sample.alice ]}
      ∧ (∀ k v, k ∈ ["p1"] →
           ({[ "p1" := Sample.bob ]} : gmap string json) !! k = Some v →
           R !! k = Some v)
      ∧ (∀ k, k ∈ ["p1"] →
           ({[ "p1" := Sample.bob ]} : gmap string json) !! k = None →
           R !! k = None).
Proof.
  assert (stored Sample.w0 1 {[ "p1" := Sample.alice ]}) as HD.
  { apply (stored_row _ _ Sample.snapshot1); vm_compute; reflexivity. }
  assert (heap Sample.w0 !! 6%positive = Some (JObj {[ "p1" := Sample.bob ]}))
    as Hups by (vm_compute; reflexivity).
  assert (heap Sample.w0 !! 3%positive = Some (JArr (JStr <$> ["p1"])))
    as Hdels by (vm_compute; reflexivity).
  split; [by repeat split|].
  exact (apply_snapshot_patch_upsert_wins _ _ _ _ _ _ _ HD Hups Hdels).
Defined.

Lemma apply_snapshot_patch_inputs_unchanged_witness :
  (is_Some (heap Sample.w0 !! 2%positive)
   ∧ is_Some (heap Sample.w0 !! 3%positive)
   ∧ get_snapshot 1 Sample.w0 = (Return (Some Sample.snapshot1), Sample.w0))
  ∧ let out := apply_snapshot_patch 1 2%positive 3%positive Sample.w0 in
    heap out.2 !! 2%positive = heap Sample.w0 !! 2%positive
    ∧ heap out.2 !! 3%positive = heap Sample.w0 !! 3%positive
    ∧ (∀ snapshot, Some Sample.snapshot1 = Some snapshot →
         heap out.2 !! PedigreeSnapshot.people_json snapshot
         = heap Sample.w0 !! PedigreeSnapshot.people_json snapshot)
    ∧ (∀ l, is_Some (heap Sample.w0 !! l) → heap out.2 !! l = heap Sample.w0 !! l)
    ∧ (∀ snapshot, out.1 = Return snapshot →
         heap Sample.w0 !! PedigreeSnapshot.people_json snapshot = None).
Proof.
  assert (is_Some (heap Sample.w0 !! 2%positive)) as Hups
    by (eexists; vm_compute; reflexivity).
  assert (is_Some (heap Sample.w0 !! 3%positive)) as Hdels
    by (eexists; vm_compute; reflexivity).
  assert (get_snapshot 1 Sample.w0 = (Return (Some Sample.snapshot1), Sample.w0))
    as Hprior by reflexivity.
  split; [by repeat split|].
  exact (apply_snapshot_patch_inputs_unchanged _ _ _ _ _ Hups Hdels Hprior).
Defined.

(** C7. For an account that has no snapshot, [apply_snapshot_patch] does not
    raise: it creates the account's row, and the row's document is exactly
    the upsert map. *)
Theorem apply_snapshot_patch_creates w uid ups dels U Del :
  get_snapshot uid w = (Return None, w) →
  heap w !! ups = Some (JObj U) →
  heap w !! dels = Some (JArr (JStr <$> Del)) →
  ∃ snapshot w',
    apply_snapshot_patch uid ups dels w = (Return snapshot, w')
    ∧ PedigreeSnapshot.user_id snapshot = uid
    ∧ snapshots (db w') = (snapshots (db w) ++ [snapshot])%list
    ∧ get_snapshot uid w' = (Return (Some snapshot), w')
    ∧ heap w' !! PedigreeSnapshot.people_json snapshot = Some (JObj U)
    ∧ users (db w') = users (db w).
Proof.
  intros Hnone Hups Hdels.
  assert (find (of_user uid) (snapshots (db w)) = None) as Hfind.
  { unfold get_snapshot, session, bind, ret in Hnone. simpl in Hnone. congruence. }
  rewrite (apply_snapshot_patch_merge w uid ups dels U Del ∅
             (stored_none _ _ Hfind) Hups Hdels).
  rewrite without_empty, (right_id_L ∅ (∪)).
  unfold upsert_snapshot, get_snapshot, session, commit, bind, ret. simpl.
  rewrite Hfind. simpl. eexists _, _. split; [done|]. simpl.
  repeat split.
  - rewrite find_app_None; [done..|]. unfold of_user. simpl.
    by apply bool_decide_eq_true.
  - apply lookup_insert_eq.
Qed.

Lemma apply_snapshot_patch_creates_witness :
  (get_snapshot 2 Sample.w0 = (Return None, Sample.w0)
   ∧ heap Sample.w0 !! 2%positive = Some (JObj {[ "p2" := Sample.bob ]})
   ∧ heap Sample.w0 !! 3%positive = Some (JArr (JStr <$> ["p1"])))
  ∧ ∃ snapshot w',
      apply_snapshot_patch 2 2%positive 3%positive Sample.w0 = (Return snapshot, w')
      ∧ PedigreeSnapshot.user_id snapshot = 2
      ∧ snapshots (db w') = (snapshots (db Sample.w0) ++ [snapshot])%list
      ∧ get_snapshot 2 w' = (Return (Some snapshot), w')
      ∧ heap w' !! PedigreeSnapshot.people_json snapshot
        = Some (JObj {[ "p2" := Sample.bob ]})
      ∧ users (db w') = users (db Sample.w0).
Proof.
  assert (get_snapshot 2 Sample.w0 = (Return None, Sample.w0)) as Hnone
    by reflexivity.
  assert (heap Sample.w0 !! 2%positive = Some (JObj {[ "p2" := Sample.bob ]}))
    as Hups by (vm_compute; reflexivity).
  assert (heap Sample.w0 !! 3%positive = Some (JArr (JStr <$> ["p1"])))
    as Hdels by (vm_compute; reflexivity).
  split; [by repeat split|].
  exact (apply_snapshot_patch_creates _ _ _ _ _ _ Hnone Hups Hdels).
Defined.

(** C9. With an empty upsert map and an empty delete list,
    [apply_snapshot_patch] stores a document equal to the stored document
    [D]. *)
Theorem apply_snapshot_patch_empty w uid ups dels D :
  stored w uid D →
  heap w !! ups = Some (JObj ∅) →
  heap w !! dels = Some (JArr []) →
  ∃ snapshot w',
    apply_snapshot_patch uid ups dels w = (Return snapshot, w')
    ∧ get_snapshot uid w' = (Return (Some snapshot), w')
    ∧ heap w' !! PedigreeSnapshot.people_json snapshot = Some (JObj D)
    ∧ stored w' uid D.
Proof.
  intros HD Hups Hdels.
  rewrite (apply_snapshot_patch_merge w uid ups dels ∅ [] D HD Hups Hdels).
  unfold without. simpl. rewrite (left_id_L ∅ (∪)).
  destruct (upsert_snapshot_spec uid (fresh (dom (heap w)))
              (set_heap (<[fresh (dom (heap w)) := JObj D]> (heap w)) w))
    as (s & w' & Hrun & Hpj & _ & Hfind & Hheap & _).
  assert (heap w' !! PedigreeSnapshot.people_json s = Some (JObj D)) as Hdoc.
  { rewrite Hheap, Hpj. simpl. apply lookup_insert_eq. }
  exists s, w'. split; [done|]. split.
  { unfold get_snapshot, session, bind, ret. simpl. by rewrite Hfind. }
  split; [done|]. by apply (stored_row _ _ s).
Qed.

Lemma apply_snapshot_patch_empty_witness :
  (stored Sample.w0 1 {[ "p1" := Sample.alice ]}
   ∧ heap Sample.w0 !! 4%positive = Some (JObj ∅)
   ∧ heap Sample.w0 !! 5%positive = Some (JArr []))
  ∧ ∃ snapshot w',
      apply_snapshot_patch 1 4%positive 5%positive Sample.w0 = (Return snapshot, w')
      ∧ get_snapshot 1 w' = (Return (Some snapshot), w')
      ∧ heap w' !! PedigreeSnapshot.people_json snapshot
        = Some (JObj {[ "p1" := Sample.alice ]})
      ∧ stored w' 1 {[ "p1" := Sample.alice ]}.
Proof.
  assert (stored Sample.w0 1 {[ "p1" := Sample.alice ]}) as HD.
  { apply (stored_row _ _ Sample.snapshot1); vm_compute; reflexivity. }
  assert (heap Sample.w0 !! 4%positive = Some (JObj ∅))
    as Hups by (vm_compute; reflexivity).
  assert (heap Sample.w0 !! 5%positive = Some (JArr []))
    as Hdels by (vm_compute; reflexivity).
  split; [by repeat split|].
  exact (apply_snapshot_patch_empty _ _ _ _ _ HD Hups Hdels).
Defined.

(** ** The account store *)



Lemma has_google_sub_true sub u :
  has_google_sub sub u = true ↔ User.google_sub u = sub.
Proof. unfold has_google_sub. apply bool_decide_eq_true. Qed.




(** ** Bearer extraction *)

Lemma lstrip_whitespace s :
  Forall (λ c, isspace c = true) (list_ascii_of_string s) → lstrip s = "".
Proof.
  induction s as [|c s IH]; simpl; [done|].
  intros H. apply Forall_cons in H as [-> H]. by apply IH.
Qed.

Lemma extract_bearer_token_no_token authorization :
  no_token authorization → extract_bearer_token authorization = None.
Proof.
  intros [|h Hh|rest Hrest]; [done|..].
  - unfold extract_bearer_token. destruct (falsy (Some h)); [done|].
    by rewrite Hh.
  - unfold extract_bearer_token.
    assert (falsy (Some ("Bearer " ++ rest)) = false) as -> by done.
    assert (startswith ("Bearer " ++ rest) "Bearer " = true) as ->.
    { unfold startswith. cbn. by destruct rest. }
    assert (slice_from (String.length "Bearer ") ("Bearer " ++ rest) = rest)
      as -> by done.
    unfold strip. by rewrite (lstrip_whitespace _ Hrest).
Qed.

Lemma extract_bearer_token_nonempty authorization token :
  extract_bearer_token authorization = Some token → falsy (Some token) = false.
Proof.
  unfold extract_bearer_token. destruct authorization as [h|]; [|done].
  destruct (falsy (Some h)); [done|].
  destruct (negb (startswith h "Bearer ")); [done|].
  destruct (falsy (Some (strip _))) eqn:Hf; [done|]. by intros [= <-].
Qed.

(** ** The handlers *)

(** Runs the [try] statement that opens a handler, given its outcome. *)
Ltac authenticated H :=
  match type of H with
  | authenticate ?u ?a _ = (Return _, _) =>
      fold (authenticate u a); rewrite (bind_Return _ _ _ _ _ H)
  | authenticate ?u ?a _ = (Raise _, _) =>
      fold (authenticate u a); rewrite (bind_Raise _ _ _ _ _ H)
  end.

Section Handlers.

Variable settings : Settings.t.
Variable verify_oauth2_token : string → string → option Claims.t.
Variable urlopen_userinfo : string → userinfo_reply.
Variable encode_utf8 : string → option bytes.
Variable b64decode : bytes → option bytes.
Variable gzip_decompress : bytes → option bytes.
Variable decode_utf8 : bytes → option string.
Variable json_loads : string → option json.

Lemma authenticate_no_token authorization w :
  extract_bearer_token authorization = None →
  authenticate urlopen_userinfo authorization w = (Return None, w).
Proof.
  intros H. unfold authenticate, try_except, get_identity_from_access_token.
  by rewrite H.
Qed.

Lemma authenticate_verified authorization token c w :
  extract_bearer_token authorization = Some token →
  urlopen_userinfo token = UserinfoClaims c →
  authenticate urlopen_userinfo authorization w
  = (Return (Some (verified c)), log_call (Userinfo token) w).
Proof.
  intros H Hc. unfold authenticate, try_except, get_identity_from_access_token.
  rewrite H, (extract_bearer_token_nonempty _ _ H).
  unfold bind, verify_google_access_token. by rewrite Hc.
Qed.

Lemma authenticate_rejected authorization token w :
  extract_bearer_token authorization = Some token →
  (∀ c, urlopen_userinfo token ≠ UserinfoClaims c) →
  authenticate urlopen_userinfo authorization w
  = (Raise (HTTPException 401 "invalid access token"), log_call (Userinfo token) w).
Proof.
  intros H Hc. unfold authenticate, try_except, get_identity_from_access_token.
  rewrite H, (extract_bearer_token_nonempty _ _ H).
  unfold bind, verify_google_access_token.
  destruct (urlopen_userinfo token) as [| |c]; [done..|]. by destruct (Hc c).
Qed.

Lemma google_login_unfold payload authorization :
  google_login settings verify_oauth2_token urlopen_userinfo payload authorization
  = (identity <- authenticate urlopen_userinfo authorization ;;
     identity <-
       match identity with
       | Some identity => ret identity
       | None =>
           try_except (verify_google_identity settings verify_oauth2_token payload)
             (λ _, raise (HTTPException 401 "invalid id token"))
       end ;;
     login_as identity).
Proof. reflexivity. Qed.

Lemma calls_login_as identity w : calls (login_as identity w).2 = calls w.
Proof.
  unfold login_as. destruct (_ || _); [done|].
  unfold upsert_user, session, commit, bind, ret. simpl.
  by destruct (find (has_google_sub (Identity.google_sub identity)) (users (db w))).
Qed.

(** C3. When the request carries a bearer access token, the outcome of
    [google_login] is decided by that token alone: a token the provider
    rejects, or whose check fails, gives 401 whatever the body holds; a token
    the provider accepts logs in the provider's identity. The body, the
    settings and the identity-token verifier are not consulted, and the only
    outbound call is the userinfo request. *)
Theorem google_login_access_token_first payload authorization token w :
  extract_bearer_token authorization = Some token →
  let out := google_login settings verify_oauth2_token urlopen_userinfo
               payload authorization w in
  match urlopen_userinfo token with
  | UserinfoClaims c => out = login_as (verified c) (log_call (Userinfo token) w)
  | _ => out = (Raise (HTTPException 401 "invalid access token"),
                log_call (Userinfo token) w)
  end
  ∧ calls out.2 = (calls w ++ [Userinfo token])%list.
Proof.
  intros Htoken out. subst out. rewrite google_login_unfold.
  destruct (urlopen_userinfo token) as [| |c] eqn:Hreply.
  - assert (∀ c, urlopen_userinfo token ≠ UserinfoClaims c) as Hno by congruence.
    pose proof (authenticate_rejected _ _ w Htoken Hno) as Hauth.
    by authenticated Hauth.
  - assert (∀ c, urlopen_userinfo token ≠ UserinfoClaims c) as Hno by congruence.
    pose proof (authenticate_rejected _ _ w Htoken Hno) as Hauth.
    by authenticated Hauth.
  - pose proof (authenticate_verified _ _ _ w Htoken Hreply) as Hauth.
    authenticated Hauth. split; [done|].
    change (calls (login_as (verified c) (log_call (Userinfo token) w)).2
            = (calls w ++ [Userinfo token])%list).
    by rewrite calls_login_as.
Qed.

(** C10. An [Authorization] header that is absent, does not start with
    ["Bearer "], or has only whitespace after the prefix yields no token and
    no error: [google_login] goes on to the identity-token path from the
    unchanged world, and the four pedigree handlers answer 401
    ["access token is required"] in the unchanged world, so without any
    outbound call. *)
Theorem no_token_is_not_an_error authorization login_payload google_sub
    put_payload patch_payload w :
  no_token authorization →
  extract_bearer_token authorization = None
  ∧ google_login settings verify_oauth2_token urlopen_userinfo login_payload
      authorization w
    = (identity <- try_except
                     (verify_google_identity settings verify_oauth2_token login_payload)
                     (λ _, raise (HTTPException 401 "invalid id token")) ;;
       login_as identity) w
  ∧ get_pedigree urlopen_userinfo google_sub authorization w
    = (Raise (HTTPException 401 "access token is required"), w)
  ∧ put_pedigree urlopen_userinfo google_sub put_payload authorization w
    = (Raise (HTTPException 401 "access token is required"), w)
  ∧ remove_pedigree urlopen_userinfo google_sub authorization w
    = (Raise (HTTPException 401 "access token is required"), w)
  ∧ patch_pedigree urlopen_userinfo encode_utf8 b64decode gzip_decompress
      decode_utf8 json_loads google_sub patch_payload authorization w
    = (Raise (HTTPException 401 "access token is required"), w).
Proof.
  intros Hno. apply extract_bearer_token_no_token in Hno.
  pose proof (authenticate_no_token _ w Hno) as Hauth.
  split; [done|]. split.
  { rewrite google_login_unfold. by authenticated Hauth. }
  repeat split.
  - unfold get_pedigree. by authenticated Hauth.
  - unfold put_pedigree. by authenticated Hauth.
  - unfold remove_pedigree. by authenticated Hauth.
  - unfold patch_pedigree. by authenticated Hauth.
Qed.

(** C8. When the subject of the verified access token differs from the
    subject in the path, each pedigree handler raises 403 ["forbidden"]: no
    response body is built, and apart from the record of the userinfo call
    the world is the one before the request, whatever accounts and snapshots
    it holds. *)
Theorem pedigree_forbidden google_sub authorization token c put_payload
    patch_payload w :
  extract_bearer_token authorization = Some token →
  urlopen_userinfo token = UserinfoClaims c →
  Claims.sub c ≠ Some google_sub →
  get_pedigree urlopen_userinfo google_sub authorization w
  = (Raise (HTTPException 403 "forbidden"), log_call (Userinfo token) w)
  ∧ put_pedigree urlopen_userinfo google_sub put_payload authorization w
    = (Raise (HTTPException 403 "forbidden"), log_call (Userinfo token) w)
  ∧ remove_pedigree urlopen_userinfo google_sub authorization w
    = (Raise (HTTPException 403 "forbidden"), log_call (Userinfo token) w)
  ∧ patch_pedigree urlopen_userinfo encode_utf8 b64decode gzip_decompress
      decode_utf8 json_loads google_sub patch_payload authorization w
    = (Raise (HTTPException 403 "forbidden"), log_call (Userinfo token) w).
Proof.
  intros Htoken Hreply Hsub.
  pose proof (authenticate_verified _ _ _ w Htoken Hreply) as Hauth.
  assert (negb (bool_decide (Identity.google_sub (verified c) = Some google_sub))
          = true) as Hne.
  { simpl. by rewrite bool_decide_eq_false_2. }
  repeat split.
  - unfold get_pedigree. authenticated Hauth. by rewrite Hne.
  - unfold put_pedigree. authenticated Hauth. by rewrite Hne.
  - unfold remove_pedigree. authenticated Hauth. by rewrite Hne.
  - unfold patch_pedigree. authenticated Hauth. by rewrite Hne.
Qed.

(** The fallback of [verify_google_identity] is taken whenever the identity
    token or the audience is missing or empty. *)
Lemma verify_google_identity_fallback payload w :
  falsy (GoogleLoginRequest.id_token payload) = true
  ∨ falsy (Settings.google_client_id settings) = true →
  verify_google_identity settings verify_oauth2_token payload w
  = (Return (asserted payload), w).
Proof.
  unfold verify_google_identity.
  destruct (GoogleLoginRequest.id_token payload) as [t|];
    destruct (Settings.google_client_id settings) as [a|]; try done.
  intros [H|H]; rewrite H; simpl; [done|]. by rewrite andb_false_r.
Qed.

(** C2, at the input where the code departs from it: an audience is
    configured, the body carries no identity token and asserts the subject of
    account 1. [verify_google_identity] returns the asserted identity
    without any verification call, and [google_login], given no
    [Authorization] header, answers with account 1 and has replaced its
    email by the asserted one. *)
Theorem dev_fallback_with_audience_configured :
  Settings.google_client_id Sample.production = Some "client-1"
  ∧ verify_google_identity Sample.production verify_oauth2_token Sample.forged
      Sample.w0
    = (Return (asserted Sample.forged), Sample.w0)
  ∧ (google_login Sample.production verify_oauth2_token urlopen_userinfo
       Sample.forged None Sample.w0).1
    = Return {| UserResponse.id := 1;
                UserResponse.google_sub := Some "sub-1";
                UserResponse.email := Some "mallory@example.org";
                UserResponse.name := None;
                UserResponse.photo_url := None |}
  ∧ calls (google_login Sample.production verify_oauth2_token urlopen_userinfo
             Sample.forged None Sample.w0).2 = [].
Proof. by repeat split. Qed.

(** *** The compressed envelope *)

Lemma decode_compressed_failure payload_b64 w :
  decode_failure encode_utf8 b64decode gzip_decompress decode_utf8 json_loads
    payload_b64 →
  ∃ e, decode_compressed encode_utf8 b64decode gzip_decompress decode_utf8
         json_loads payload_b64 w = (Raise e, w).
Proof.
  unfold decode_compressed, decoded_body, library, bind, ret, raise.
  intros [H|? H1 H|? ? H1 H2 H|? ? ? H1 H2 H3 H|? ? ? ? H1 H2 H3 H4 H|body H Hb];
    rewrite ?H1, ?H2, ?H3, ?H4; simpl; try (rewrite H; by eexists).
  unfold decoded_body in H.
  destruct (encode_utf8 payload_b64) as [x1|]; [|done]. simpl in H.
  destruct (b64decode x1) as [x2|]; [|done]. simpl in H.
  destruct (gzip_decompress x2) as [x3|]; [|done]. simpl in H.
  destruct (decode_utf8 x3) as [x4|]; [|done]. simpl in H.
  rewrite H. destruct body; try done; by eexists.
Qed.

Lemma decode_compressed_success payload_b64 members w :
  decoded_body encode_utf8 b64decode gzip_decompress decode_utf8 json_loads
    payload_b64 = Some (JObj members) →
  decode_compressed encode_utf8 b64decode gzip_decompress decode_utf8
    json_loads payload_b64 w
  = (upserts <- alloc (default (JObj ∅) (members !! "upserts")) ;;
     deletes <- alloc (default (JArr []) (members !! "deletes")) ;;
     ret (upserts, deletes)) w.
Proof.
  unfold decode_compressed, decoded_body. intros H.
  destruct (encode_utf8 payload_b64) as [x1|]; [|done]. simpl in H.
  rewrite (bind_Return _ _ w x1 w) by done.
  destruct (b64decode x1) as [x2|]; [|done]. simpl in H.
  rewrite (bind_Return _ _ w x2 w) by done.
  destruct (gzip_decompress x2) as [x3|]; [|done]. simpl in H.
  rewrite (bind_Return _ _ w x3 w) by done.
  destruct (decode_utf8 x3) as [x4|]; [|done]. simpl in H.
  rewrite (bind_Return _ _ w x4 w) by done.
  rewrite H. by rewrite (bind_Return _ _ w (JObj members) w) by done.
Qed.

Lemma stored_mono w w2 uid D :
  stored w uid D →
  db w2 = db w →
  (∀ l v, heap w !! l = Some v → heap w2 !! l = Some v) →
  stored w2 uid D.
Proof.
  intros [s D' Hs HD|Hs] Hdb Hheap.
  - apply (stored_row _ _ s); [by rewrite Hdb | by apply Hheap].
  - apply stored_none. by rewrite Hdb.
Qed.

Lemma patch_response_merge user ups dels U Del D w :
  stored w (User.id user) D →
  heap w !! ups = Some (JObj U) →
  heap w !! dels = Some (JArr (JStr <$> Del)) →
  (patch_response user ups dels w).1
  = Return {| SnapshotResponse.user_id := User.id user;
              SnapshotResponse.people_by_id := U ∪ without Del D |}.
Proof.
  intros HD Hups Hdels. unfold patch_response.
  destruct (upsert_snapshot_spec (User.id user) (fresh (dom (heap w)))
              (set_heap (<[fresh (dom (heap w)) := JObj (U ∪ without Del D)]> (heap w)) w))
    as (s & w' & Hrun & Hpj & _ & _ & Hheap & _).
  rewrite <- (apply_snapshot_patch_merge w _ ups dels U Del D HD Hups Hdels) in Hrun.
  rewrite (bind_Return _ _ _ _ _ Hrun).
  assert (deref (PedigreeSnapshot.people_json s) w'
          = (Return (JObj (U ∪ without Del D)), w')) as Hderef.
  { unfold deref. rewrite Hheap, Hpj. simpl. by rewrite lookup_insert_eq. }
  by rewrite (bind_Return _ _ _ _ _ Hderef).
Qed.

Lemma patch_pedigree_authorized google_sub payload authorization token c user w :
  extract_bearer_token authorization = Some token →
  urlopen_userinfo token = UserinfoClaims c →
  Claims.sub c = Some google_sub →
  get_user_by_google_sub google_sub w = (Return (Some user), w) →
  patch_pedigree urlopen_userinfo encode_utf8 b64decode gzip_decompress
    decode_utf8 json_loads google_sub payload authorization w
  = (upserts <- alloc (JObj (SnapshotPatchRequest.upserts payload)) ;;
     deletes <- alloc (JArr (JStr <$> SnapshotPatchRequest.deletes payload)) ;;
     effective <-
       (if SnapshotPatchRequest.compressed payload then
          match SnapshotPatchRequest.payload_b64 payload with
          | Some payload_b64 =>
              if falsy (Some payload_b64)
              then raise (HTTPException 400 "payload_b64 is required when compressed")
              else
                try_except
                  (decode_compressed encode_utf8 b64decode gzip_decompress
                     decode_utf8 json_loads payload_b64)
                  (λ _, raise (HTTPException 400 "invalid compressed payload"))
          | None => raise (HTTPException 400 "payload_b64 is required when compressed")
          end
        else ret (upserts, deletes)) ;;
     let '(upserts, deletes) := effective in
     patch_response user upserts deletes) (log_call (Userinfo token) w).
Proof.
  intros Htoken Hreply Hsub Huser.
  pose proof (authenticate_verified _ _ _ w Htoken Hreply) as Hauth.
  unfold patch_pedigree. authenticated Hauth.
  assert (negb (bool_decide (Identity.google_sub (verified c) = Some google_sub))
          = false) as ->.
  { simpl. by rewrite bool_decide_eq_true_2. }
  assert (get_user_by_google_sub google_sub (log_call (Userinfo token) w)
          = (Return (Some user), log_call (Userinfo token) w)) as Huser'.
  { unfold get_user_by_google_sub, session, bind, ret in *. simpl in *.
    congruence. }
  by rewrite (bind_Return _ _ _ _ _ Huser').
Qed.

(** C4. A compressed patch request that has passed the owner check and whose
    account exists: with [payload_b64] absent or empty it raises 400; with a
    failure at any stage of the decoding (encoding, base64, gzip, UTF-8,
    JSON, or a decoded value that is not an object) it raises one and the
    same 400 ["invalid compressed payload"]; otherwise the patch that runs is
    the one of the decoded object's [upserts] (default [{}]) and [deletes]
    (default [[]]), and for a decoded upsert map [U] and delete list [Del]
    the response is [U ∪ without Del D] whatever [upserts] and [deletes] the
    request itself carries. The rejected requests leave the session as it
    was. *)
Theorem patch_pedigree_compressed google_sub payload authorization token c user w :
  extract_bearer_token authorization = Some token →
  urlopen_userinfo token = UserinfoClaims c →
  Claims.sub c = Some google_sub →
  get_user_by_google_sub google_sub w = (Return (Some user), w) →
  SnapshotPatchRequest.compressed payload = true →
  let out := patch_pedigree urlopen_userinfo encode_utf8 b64decode gzip_decompress
               decode_utf8 json_loads google_sub payload authorization w in
  (falsy (SnapshotPatchRequest.payload_b64 payload) = true →
     out.1 = Raise (HTTPException 400 "payload_b64 is required when compressed")
     ∧ db out.2 = db w)
  ∧ (∀ s, SnapshotPatchRequest.payload_b64 payload = Some s → s ≠ "" →
       decode_failure encode_utf8 b64decode gzip_decompress decode_utf8
         json_loads s →
       out.1 = Raise (HTTPException 400 "invalid compressed payload")
       ∧ db out.2 = db w)
  ∧ (∀ s members, SnapshotPatchRequest.payload_b64 payload = Some s → s ≠ "" →
       decoded_body encode_utf8 b64decode gzip_decompress decode_utf8
         json_loads s = Some (JObj members) →
       (∃ w2 upserts deletes,
          out = patch_response user upserts deletes w2
          ∧ heap w2 !! upserts = Some (default (JObj ∅) (members !! "upserts"))
          ∧ heap w2 !! deletes = Some (default (JArr []) (members !! "deletes"))
          ∧ db w2 = db w
          ∧ (∀ l v, heap w !! l = Some v → heap w2 !! l = Some v))
       ∧ (∀ U Del D,
            default (JObj ∅) (members !! "upserts") = JObj U →
            default (JArr []) (members !! "deletes") = JArr (JStr <$> Del) →
            stored w (User.id user) D →
            out.1 = Return {| SnapshotResponse.user_id := User.id user;
                              SnapshotResponse.people_by_id := U ∪ without Del D |})).
Proof.
  intros Htoken Hreply Hsub Huser Hcompressed out. subst out.
  rewrite (patch_pedigree_authorized _ _ _ _ _ _ _ Htoken Hreply Hsub Huser).
  rewrite Hcompressed.
  set (w1 := log_call (Userinfo token) w).
  set (l1 := fresh (dom (heap w1))).
  set (w1a := set_heap (<[l1 := JObj (SnapshotPatchRequest.upserts payload)]> (heap w1)) w1).
  set (l2 := fresh (dom (heap w1a))).
  set (w1b := set_heap
                (<[l2 := JArr (JStr <$> SnapshotPatchRequest.deletes payload)]> (heap w1a))
                w1a).
  rewrite (bind_Return _ _ w1 l1 w1a) by done.
  rewrite (bind_Return _ _ w1a l2 w1b) by done.
  assert (∀ l v, heap w !! l = Some v → heap w1b !! l = Some v) as Hext.
  { intros l v Hl. subst w1b. simpl.
    apply (lookup_alloc_old w1a). subst w1a. simpl.
    by apply (lookup_alloc_old w1). }
  split; [|split].
  - intros Hfalsy.
    destruct (SnapshotPatchRequest.payload_b64 payload) as [s|].
    + rewrite Hfalsy. done.
    + done.
  - intros s -> Hs Hfail.
    assert (falsy (Some s) = false) as -> by (simpl; by rewrite bool_decide_eq_false_2).
    destruct (decode_compressed_failure s w1b Hfail) as [e He].
    unfold bind, try_except. by rewrite He.
  - intros s members -> Hs Hbody.
    assert (falsy (Some s) = false) as -> by (simpl; by rewrite bool_decide_eq_false_2).
    set (u := fresh (dom (heap w1b))).
    set (w2a := set_heap (<[u := default (JObj ∅) (members !! "upserts")]> (heap w1b)) w1b).
    set (d := fresh (dom (heap w2a))).
    set (w2 := set_heap (<[d := default (JArr []) (members !! "deletes")]> (heap w2a)) w2a).
    assert (try_except
              (decode_compressed encode_utf8 b64decode gzip_decompress decode_utf8
                 json_loads s)
              (λ _, raise (HTTPException 400 "invalid compressed payload")) w1b
            = (Return (u, d), w2)) as Hdecode.
    { unfold try_except. by rewrite (decode_compressed_success s members w1b Hbody). }
    rewrite (bind_Return _ _ _ _ _ Hdecode).
    assert (heap w2 !! u = Some (default (JObj ∅) (members !! "upserts"))) as Hu.
    { subst w2. simpl. apply (lookup_alloc_old w2a). subst w2a. simpl.
      apply lookup_insert_eq. }
    assert (heap w2 !! d = Some (default (JArr []) (members !! "deletes"))) as Hd.
    { subst w2. simpl. apply lookup_insert_eq. }
    assert (∀ l v, heap w !! l = Some v → heap w2 !! l = Some v) as Hext2.
    { intros l v Hl. subst w2. simpl.
      apply (lookup_alloc_old w2a). subst w2a. simpl.
      apply (lookup_alloc_old w1b). by apply Hext. }
    split.
    + exists w2, u, d. by repeat split.
    + intros U Del D HU HDel HD.
      rewrite HU in Hu. rewrite HDel in Hd.
      apply patch_response_merge; [|done..].
      by apply (stored_mono w).
Qed.

End Handlers.

(** ** The statements at sample inputs *)


Lemma google_login_access_token_first_witness :
  extract_bearer_token (Some "Bearer stale-token") = Some "stale-token"
  ∧ let out := google_login Sample.production Sample.verify Sample.userinfo
                 Sample.with_id_token (Some "Bearer stale-token") Sample.w0 in
    match Sample.userinfo "stale-token" with
    | UserinfoClaims c =>
        out = login_as (verified c) (log_call (Userinfo "stale-token") Sample.w0)
    | _ => out = (Raise (HTTPException 401 "invalid access token"),
                  log_call (Userinfo "stale-token") Sample.w0)
    end
    ∧ calls out.2 = (calls Sample.w0 ++ [Userinfo "stale-token"])%list.
Proof.
  split; [reflexivity|].
  exact (google_login_access_token_first Sample.production Sample.verify
           Sample.userinfo Sample.with_id_token (Some "Bearer stale-token")
           "stale-token" Sample.w0 eq_refl).
Defined.

Lemma pedigree_forbidden_witness :
  (extract_bearer_token (Some "Bearer token-2") = Some "token-2"
   ∧ Sample.userinfo "token-2" = UserinfoClaims Sample.claims2
   ∧ Claims.sub Sample.claims2 ≠ Some "sub-1")
  ∧ get_pedigree Sample.userinfo "sub-1" (Some "Bearer token-2") Sample.w0
    = (Raise (HTTPException 403 "forbidden"), log_call (Userinfo "token-2") Sample.w0)
  ∧ put_pedigree Sample.userinfo "sub-1" Sample.replacement
      (Some "Bearer token-2") Sample.w0
    = (Raise (HTTPException 403 "forbidden"), log_call (Userinfo "token-2") Sample.w0)
  ∧ remove_pedigree Sample.userinfo "sub-1" (Some "Bearer token-2") Sample.w0
    = (Raise (HTTPException 403 "forbidden"), log_call (Userinfo "token-2") Sample.w0)
  ∧ patch_pedigree Sample.userinfo Sample.encode Sample.b64 Sample.gunzip
      Sample.decode Sample.loads "sub-1" Sample.compressed_patch
      (Some "Bearer token-2") Sample.w0
    = (Raise (HTTPException 403 "forbidden"), log_call (Userinfo "token-2") Sample.w0).
Proof.
  assert (Claims.sub Sample.claims2 ≠ Some "sub-1") as Hne by discriminate.
  split; [by repeat split|].
  exact (pedigree_forbidden Sample.userinfo Sample.encode Sample.b64
           Sample.gunzip Sample.decode Sample.loads "sub-1"
           (Some "Bearer token-2") "token-2" Sample.claims2 Sample.replacement
           Sample.compressed_patch Sample.w0 eq_refl eq_refl Hne).
Defined.

Lemma no_token_is_not_an_error_witness :
  no_token (Some "Bearer   ")
  ∧ extract_bearer_token (Some "Bearer   ") = None
  ∧ google_login Sample.production Sample.verify Sample.userinfo
      Sample.with_id_token (Some "Bearer   ") Sample.w0
    = (identity <- try_except
                     (verify_google_identity Sample.production Sample.verify
                        Sample.with_id_token)
                     (λ _, raise (HTTPException 401 "invalid id token")) ;;
       login_as identity) Sample.w0
  ∧ get_pedigree Sample.userinfo "sub-1" (Some "Bearer   ") Sample.w0
    = (Raise (HTTPException 401 "access token is required"), Sample.w0)
  ∧ put_pedigree Sample.userinfo "sub-1" Sample.replacement (Some "Bearer   ")
      Sample.w0
    = (Raise (HTTPException 401 "access token is required"), Sample.w0)
  ∧ remove_pedigree Sample.userinfo "sub-1" (Some "Bearer   ") Sample.w0
    = (Raise (HTTPException 401 "access token is required"), Sample.w0)
  ∧ patch_pedigree Sample.userinfo Sample.encode Sample.b64 Sample.gunzip
      Sample.decode Sample.loads "sub-1" Sample.compressed_patch
      (Some "Bearer   ") Sample.w0
    = (Raise (HTTPException 401 "access token is required"), Sample.w0).
Proof.
  assert (no_token (Some "Bearer   ")) as Hno.
  { apply (header_blank "  "). simpl. repeat constructor. }
  split; [exact Hno|].
  exact (no_token_is_not_an_error Sample.production Sample.verify Sample.userinfo
           Sample.encode Sample.b64 Sample.gunzip Sample.decode Sample.loads
           (Some "Bearer   ") Sample.with_id_token "sub-1" Sample.replacement
           Sample.compressed_patch Sample.w0 Hno).
Defined.

Lemma patch_pedigree_compressed_witness :
  (extract_bearer_token (Some "Bearer token-1") = Some "token-1"
   ∧ Sample.userinfo "token-1" = UserinfoClaims Sample.claims1
   ∧ Claims.sub Sample.claims1 = Some "sub-1"
   ∧ get_user_by_google_sub "sub-1" Sample.w0 = (Return (Some Sample.user1), Sample.w0)
   ∧ SnapshotPatchRequest.compressed Sample.compressed_patch = true)
  ∧ let out := patch_pedigree Sample.userinfo Sample.encode Sample.b64
                 Sample.gunzip Sample.decode Sample.loads "sub-1"
                 Sample.compressed_patch (Some "Bearer token-1") Sample.w0 in
    (falsy (SnapshotPatchRequest.payload_b64 Sample.compressed_patch) = true →
       out.1 = Raise (HTTPException 400 "payload_b64 is required when compressed")
       ∧ db out.2 = db Sample.w0)
    ∧ (∀ s, SnapshotPatchRequest.payload_b64 Sample.compressed_patch = Some s →
         s ≠ "" →
         decode_failure Sample.encode Sample.b64 Sample.gunzip Sample.decode
           Sample.loads s →
         out.1 = Raise (HTTPException 400 "invalid compressed payload")
         ∧ db out.2 = db Sample.w0)
    ∧ (∀ s members,
         SnapshotPatchRequest.payload_b64 Sample.compressed_patch = Some s →
         s ≠ "" →
         decoded_body Sample.encode Sample.b64 Sample.gunzip Sample.decode
           Sample.loads s = Some (JObj members) →
         (∃ w2 upserts deletes,
            out = patch_response Sample.user1 upserts deletes w2
            ∧ heap w2 !! upserts = Some (default (JObj ∅) (members !! "upserts"))
            ∧ heap w2 !! deletes = Some (default (JArr []) (members !! "deletes"))
            ∧ db w2 = db Sample.w0
            ∧ (∀ l v, heap Sample.w0 !! l = Some v → heap w2 !! l = Some v))
         ∧ (∀ U Del D,
              default (JObj ∅) (members !! "upserts") = JObj U →
              default (JArr []) (members !! "deletes") = JArr (JStr <$> Del) →
              stored Sample.w0 (User.id Sample.user1) D →
              out.1 = Return {| SnapshotResponse.user_id := User.id Sample.user1;
                                SnapshotResponse.people_by_id := U ∪ without Del D |})).
Proof.
  split; [by repeat split|].
  exact (patch_pedigree_compressed Sample.userinfo Sample.encode Sample.b64
           Sample.gunzip Sample.decode Sample.loads "sub-1"
           Sample.compressed_patch (Some "Bearer token-1") "token-1"
           Sample.claims1 Sample.user1 Sample.w0
           eq_refl eq_refl eq_refl eq_refl eq_refl).
Defined.

(** ** Runs of the model *)

Example extract_bearer_token_strips :
  extract_bearer_token (Some "Bearer  abc ") = Some "abc".
Proof. reflexivity. Qed.

Example extract_bearer_token_case_sensitive :
  extract_bearer_token (Some "bearer abc") = None.
Proof. reflexivity. Qed.

(** The end-to-end example: [{"p1": alice}] patched with
    [upserts = {"p2": bob}], [deletes = ["p1"]] is [{"p2": bob}]. *)
Example patch_pedigree_inline :
  (patch_pedigree Sample.userinfo Sample.encode Sample.b64 Sample.gunzip
     Sample.decode Sample.loads "sub-1" Sample.inline_patch
     (Some "Bearer token-1") Sample.w0).1
  = Return {| SnapshotResponse.user_id := 1;
              SnapshotResponse.people_by_id := {[ "p2" := Sample.bob ]} |}.
Proof. vm_compute. reflexivity. Qed.

(** The same patch in an envelope; the outer [upserts] and [deletes] of the
    request play no part. *)
Example patch_pedigree_envelope :
  (patch_pedigree Sample.userinfo Sample.encode Sample.b64 Sample.gunzip
     Sample.decode Sample.loads "sub-1" Sample.compressed_patch
     (Some "Bearer token-1") Sample.w0).1
  = Return {| SnapshotResponse.user_id := 1;
              SnapshotResponse.people_by_id := {[ "p2" := Sample.bob ]} |}.
Proof. vm_compute. reflexivity. Qed.

Example patch_pedigree_corrupt :
  (patch_pedigree Sample.userinfo Sample.encode Sample.b64 Sample.gunzip
     Sample.decode Sample.loads "sub-1" Sample.corrupt_patch
     (Some "Bearer token-1") Sample.w0).1
  = Raise (HTTPException 400 "invalid compressed payload").
Proof. vm_compute. reflexivity. Qed.

Example get_pedigree_own :
  (get_pedigree Sample.userinfo "sub-1" (Some "Bearer token-1") Sample.w0).1
  = Return {| SnapshotResponse.user_id := 1;
              SnapshotResponse.people_by_id := {[ "p1" := Sample.alice ]} |}.
Proof. vm_compute. reflexivity. Qed.

Example google_login_id_token :
  (google_login Sample.production Sample.verify Sample.userinfo
     Sample.with_id_token None Sample.w0).1
  = Return {| UserResponse.id := 1;
              UserResponse.google_sub := Some "sub-1";
              UserResponse.email := Some "alice@example.org";
              UserResponse.name := Some "Alice";
              UserResponse.photo_url := None |}.
Proof. vm_compute. reflexivity. Qed.

(* ===================================================================== *)
(** * Further properties *)
(* ===================================================================== *)

(** ** What a computation keeps *)

Lemma preserves_bind {A B} I (m : M A) (k : A → M B) :
  preserves I m → (∀ a, preserves I (k a)) → preserves I (bind m k).
Proof.
  intros Hm Hk w Hw. unfold bind. specialize (Hm w Hw).
  destruct (m w) as [[a|e] w1]; simpl in *; [|done]. by apply Hk.
Qed.

Lemma preserves_for_each {A} I (l : list A) (body : A → M unit) :
  (∀ x, preserves I (body x)) → preserves I (for_each l body).
Proof.
  intros Hbody. induction l as [|x l IH]; simpl; [by intros w Hw|].
  apply preserves_bind; [apply Hbody | by intros _].
Qed.

Lemma deref_world l w : (deref l w).2 = w.
Proof. unfold deref. by destruct (heap w !! l). Qed.

Lemma iterate_world obj w : (iterate obj w).2 = w.
Proof.
  unfold iterate, bind. pose proof (deref_world obj w) as H.
  destruct (deref obj w) as [[v|e] w1]; simpl in *; subst; [|done].
  by destruct v.
Qed.

Lemma items_world obj w : (items obj w).2 = w.
Proof.
  unfold items, bind. pose proof (deref_world obj w) as H.
  destruct (deref obj w) as [[v|e] w1]; simpl in *; subst; [|done].
  by destruct v.
Qed.

Lemma working_on_refl c w d : heap w !! c = Some (JObj d) → working_on c w w.
Proof. intros H. repeat split; try done. by exists d. Qed.

Lemma working_on_store c w0 w d :
  working_on c w0 w → working_on c w0 (set_heap (<[c := JObj d]> (heap w)) w).
Proof.
  intros (Hdb & Hcalls & _ & Hframe). repeat split; try done.
  - exists d. simpl. apply lookup_insert_eq.
  - intros l Hl. simpl. rewrite lookup_insert_ne by done. by apply Hframe.
Qed.

Lemma preserves_pop c w0 key : preserves (working_on c w0) (pop c key).
Proof.
  intros w Hw. unfold pop, bind, deref.
  destruct (heap w !! c) as [v|]; [|done].
  destruct v, key; try done. by apply working_on_store.
Qed.

Lemma preserves_setitem c w0 key value :
  preserves (working_on c w0) (setitem c key value).
Proof.
  intros w Hw. unfold setitem, bind, deref.
  destruct (heap w !! c) as [v|]; [|done].
  destruct v; try done. by apply working_on_store.
Qed.

(** The loops of [merge_into] work on [current] only; what is left to do
    after them is the [upsert_snapshot]. *)
Lemma merge_into_stages uid ups dels c w0 w :
  working_on c w0 w →
  (∃ e w', merge_into uid ups dels c w = (Raise e, w') ∧ working_on c w0 w')
  ∨ (∃ w1, working_on c w0 w1
           ∧ merge_into uid ups dels c w = upsert_snapshot uid c w1).
Proof.
  intros Hw.
  enough (∃ out, merge_into uid ups dels c w = out
                 ∧ ((∃ e, out.1 = Raise e ∧ working_on c w0 out.2)
                    ∨ (∃ w1, working_on c w0 w1 ∧ out = upsert_snapshot uid c w1)))
    as ([r w'] & Hrun & [(e & He & Hw')|(w1 & Hw1 & Hout)]).
  { left. exists e, w'. simpl in He. by subst r. }
  { right. exists w1. by rewrite Hrun. }
  unfold merge_into.
  pose proof (iterate_world dels w) as H1. unfold bind at 1.
  destruct (iterate dels w) as [[ids|e] w1]; simpl in H1; subst w1;
    [|eexists; split; [reflexivity | left; by exists e]].
  pose proof (preserves_for_each _ ids _ (preserves_pop c w0) w Hw) as H2.
  unfold bind at 1.
  destruct (for_each ids _ w) as [[[]|e] w2]; simpl in H2;
    [|eexists; split; [reflexivity | left; by exists e]].
  pose proof (items_world ups w2) as H3. unfold bind at 1.
  destruct (items ups w2) as [[kvs|e] w3]; simpl in H3; subst w3;
    [|eexists; split; [reflexivity | left; by exists e]].
  pose proof (preserves_for_each _ kvs (λ '(key, value), setitem c key value)
                (λ kv, match kv with (k, v) => preserves_setitem c w0 k v end)
                w2 H2) as H4.
  unfold bind at 1.
  destruct (for_each kvs _ w2) as [[[]|e] w4]; simpl in H4;
    [|eexists; split; [reflexivity | left; by exists e]].
  eexists; split; [reflexivity|]. right. by exists w4.
Qed.

Lemma apply_snapshot_patch_starts uid ups dels w :
  (∃ e, apply_snapshot_patch uid ups dels w = (Raise e, w))
  ∨ (∃ d, apply_snapshot_patch uid ups dels w
          = merge_into uid ups dels (fresh (dom (heap w)))
              (set_heap (<[fresh (dom (heap w)) := JObj d]> (heap w)) w)).
Proof.
  assert (get_snapshot uid w = (Return (find (of_user uid) (snapshots (db w))), w))
    as Hget by done.
  unfold apply_snapshot_patch. rewrite (bind_Return _ _ _ _ _ Hget).
  fold (merge_into uid ups dels).
  destruct (find (of_user uid) (snapshots (db w))) as [s|].
  - destruct (heap w !! PedigreeSnapshot.people_json s) as [pj|] eqn:Hpj.
    + right. exists (match pj with JObj members => members | _ => ∅ end).
      apply bind_Return. unfold bind, deref. rewrite Hpj. by destruct pj.
    + left. eexists. apply bind_Raise. unfold bind, deref. by rewrite Hpj.
  - right. exists ∅. by apply bind_Return.
Qed.

(** [apply_snapshot_patch] either raises with the session as it was, or ends
    in [upsert_snapshot] of a new dictionary. Objects that existed are as
    they were either way. *)
Lemma apply_snapshot_patch_outcome uid ups dels w :
  (∃ e w', apply_snapshot_patch uid ups dels w = (Raise e, w')
           ∧ db w' = db w ∧ calls w' = calls w
           ∧ (∀ l, l ≠ fresh (dom (heap w)) → heap w' !! l = heap w !! l))
  ∨ (∃ w1 d, db w1 = db w ∧ calls w1 = calls w
             ∧ heap w1 !! fresh (dom (heap w)) = Some (JObj d)
             ∧ (∀ l, l ≠ fresh (dom (heap w)) → heap w1 !! l = heap w !! l)
             ∧ apply_snapshot_patch uid ups dels w
               = upsert_snapshot uid (fresh (dom (heap w))) w1).
Proof.
  destruct (apply_snapshot_patch_starts uid ups dels w) as [[e He]|[d0 Hd]].
  { left. by exists e, w. }
  rewrite Hd. set (c := fresh (dom (heap w))).
  set (w0 := set_heap (<[c := JObj d0]> (heap w)) w).
  assert (working_on c w0 w0) as Hw0.
  { apply (working_on_refl _ _ d0). apply lookup_insert_eq. }
  assert (∀ w', working_on c w0 w' →
            db w' = db w ∧ calls w' = calls w
            ∧ (∃ d, heap w' !! c = Some (JObj d))
            ∧ (∀ l, l ≠ c → heap w' !! l = heap w !! l)) as Hback.
  { intros w' (Hdb & Hcalls & Hd' & Hframe). repeat split; try done.
    intros l Hl. rewrite Hframe by done. simpl. by rewrite lookup_insert_ne. }
  destruct (merge_into_stages uid ups dels c w0 w0 Hw0)
    as [(e & w' & -> & Hw')|(w1 & Hw1 & ->)].
  - left. exists e, w'. destruct (Hback _ Hw') as (? & ? & _ & ?). done.
  - right. destruct (Hback _ Hw1) as (? & ? & [d ?] & ?). by exists w1, d.
Qed.

(** ** Rows changed in place, appended and removed *)

Lemma find_update_first_other {A} (p q : A → bool) (f : A → A) l :
  (∀ x, p x = true → q x = false) →
  (∀ x, p x = true → q (f x) = false) →
  find q (update_first p f l) = find q l.
Proof.
  intros Hpq Hpf. induction l as [|x l IH]; simpl; [done|].
  destruct (p x) eqn:Hp; simpl.
  - by rewrite (Hpq x Hp), (Hpf x Hp).
  - by rewrite IH.
Qed.

Lemma find_snoc_other {A} (q : A → bool) l x :
  q x = false → find q (l ++ [x]) = find q l.
Proof.
  intros Hq. induction l as [|y l IH]; simpl; [by rewrite Hq|].
  by rewrite IH.
Qed.

Lemma find_remove_first_other {A} (p q : A → bool) l :
  (∀ x, p x = true → q x = false) →
  find q (remove_first p l) = find q l.
Proof.
  intros Hpq. induction l as [|x l IH]; simpl; [done|].
  destruct (p x) eqn:Hp; simpl.
  - by rewrite (Hpq x Hp).
  - by rewrite IH.
Qed.

Lemma elem_of_update_first {A} (p : A → bool) (f : A → A) l y :
  y ∈ update_first p f l → y ∈ l ∨ ∃ x, x ∈ l ∧ p x = true ∧ y = f x.
Proof.
  induction l as [|x l IH]; simpl; [by left|].
  destruct (p x) eqn:Hp.
  - intros [->|Hy]%elem_of_cons.
    + right. exists x. split; [left|done].
    + left. by right.
  - intros [->|Hy]%elem_of_cons; [left; left|].
    destruct (IH Hy) as [?|(x' & ? & ? & ?)]; [left; by right|].
    right. exists x'. split; [by right|done].
Qed.

Lemma elem_of_remove_first {A} (p : A → bool) l y :
  y ∈ remove_first p l → y ∈ l.
Proof.
  induction l as [|x l IH]; simpl; [done|].
  destruct (p x); [by right|].
  intros [->|Hy]%elem_of_cons; [left | right; by apply IH].
Qed.

Lemma fmap_update_first {A B} (g : A → B) (p : A → bool) (f : A → A) l :
  (∀ x, p x = true → g (f x) = g x) →
  g <$> update_first p f l = g <$> l.
Proof.
  intros Hg. induction l as [|x l IH]; [done|].
  cbn [update_first]. destruct (p x) eqn:Hp; rewrite !fmap_cons.
  - by rewrite Hg.
  - by rewrite IH.
Qed.

Lemma length_update_first {A} (p : A → bool) (f : A → A) l :
  List.length (update_first p f l) = List.length l.
Proof.
  induction l as [|x l IH]; simpl; [done|].
  destruct (p x); simpl; by rewrite ?IH.
Qed.

Lemma NoDup_fmap_remove_first {A B} (g : A → B) (p : A → bool) l :
  NoDup (g <$> l) → NoDup (g <$> remove_first p l).
Proof.
  induction l as [|x l IH]; [done|].
  rewrite fmap_cons. intros [Hx Hl]%NoDup_cons.
  cbn [remove_first]. destruct (p x); [done|].
  rewrite fmap_cons. apply NoDup_cons. split; [|by apply IH].
  intros Hin. apply Hx. apply list_elem_of_fmap in Hin as (y & -> & Hy).
  apply list_elem_of_fmap. exists y. split; [done|].
  by eapply elem_of_remove_first.
Qed.

Lemma of_user_true uid s :
  of_user uid s = true ↔ PedigreeSnapshot.user_id s = uid.
Proof. unfold of_user. apply bool_decide_eq_true. Qed.

Lemma of_user_other uid uid' s :
  uid' ≠ uid → of_user uid s = true → of_user uid' s = false.
Proof.
  intros Hne Hs%of_user_true. unfold of_user.
  apply bool_decide_eq_false. congruence.
Qed.

Lemma find_remove_first_unique uid l :
  NoDup (PedigreeSnapshot.user_id <$> l) →
  find (of_user uid) (remove_first (of_user uid) l) = None.
Proof.
  induction l as [|x l IH]; [done|].
  rewrite fmap_cons. intros [Hx Hl]%NoDup_cons.
  cbn [remove_first]. destruct (of_user uid x) eqn:Hp.
  - destruct (find (of_user uid) l) as [y|] eqn:Hy; [|done].
    exfalso. apply Hx. apply find_some in Hy as [Hin Hy].
    apply of_user_true in Hp, Hy. apply list_elem_of_fmap.
    exists y. split; [congruence | by apply list_elem_of_In].
  - simpl. rewrite Hp. by apply IH.
Qed.

(** ** The snapshot store *)

Lemma get_snapshot_run uid w :
  get_snapshot uid w = (Return (find (of_user uid) (snapshots (db w))), w).
Proof. done. Qed.

(** What [upsert_snapshot] does to the table: the account's row is changed
    in place, or a row is appended when it has none. *)
Lemma upsert_snapshot_rows uid c w :
  ∃ snapshot w',
    upsert_snapshot uid c w = (Return snapshot, w')
    ∧ PedigreeSnapshot.people_json snapshot = c
    ∧ PedigreeSnapshot.user_id snapshot = uid
    ∧ heap w' = heap w ∧ calls w' = calls w ∧ users (db w') = users (db w)
    ∧ ((is_Some (find (of_user uid) (snapshots (db w)))
        ∧ snapshots (db w')
          = update_first (of_user uid) (λ _, snapshot) (snapshots (db w)))
       ∨ (find (of_user uid) (snapshots (db w)) = None
          ∧ snapshots (db w') = (snapshots (db w) ++ [snapshot])%list)).
Proof.
  unfold upsert_snapshot. rewrite (bind_Return _ _ _ _ _ (get_snapshot_run uid w)).
  destruct (find (of_user uid) (snapshots (db w))) as [old|] eqn:Hfind.
  - eexists _, _. split; [reflexivity|]. simpl.
    repeat split; [by eapply find_of_user|]. left. by split.
  - eexists _, _. split; [reflexivity|]. simpl. repeat split. by right.
Qed.

Lemma stored_after_upsert uid c P w snapshot w' :
  upsert_snapshot uid c w = (Return snapshot, w') →
  heap w !! c = Some (JObj P) →
  stored w' uid P.
Proof.
  intros Hrun Hc.
  destruct (upsert_snapshot_spec uid c w) as (s & w1 & Hrun' & Hpj & _ & Hfind & Hheap & _).
  rewrite Hrun in Hrun'. injection Hrun' as <- <-.
  apply (stored_row _ _ snapshot); [done|]. by rewrite Hheap, Hpj.
Qed.

Lemma find_other_after_upsert uid uid' c w :
  uid' ≠ uid →
  find (of_user uid') (snapshots (db (upsert_snapshot uid c w).2))
  = find (of_user uid') (snapshots (db w)).
Proof.
  intros Hne.
  destruct (upsert_snapshot_rows uid c w)
    as (s & w' & -> & _ & Hu & _ & _ & _ & Hrows).
  simpl. destruct Hrows as [[_ ->]|[_ ->]].
  - apply find_update_first_other; intros x Hx.
    + by apply (of_user_other uid).
    + apply (of_user_other uid); [done|]. by apply of_user_true.
  - apply find_snoc_other. apply (of_user_other uid); [done|].
    by apply of_user_true.
Qed.

(** X1. [upsert_snapshot] then [get_snapshot]: the account's document is the
    one that was given, the documents of the other accounts are the ones
    they had, and the accounts table is untouched. *)
Theorem upsert_snapshot_round_trip uid c P w :
  heap w !! c = Some (JObj P) →
  ∃ snapshot w',
    upsert_snapshot uid c w = (Return snapshot, w')
    ∧ get_snapshot uid w' = (Return (Some snapshot), w')
    ∧ heap w' !! PedigreeSnapshot.people_json snapshot = Some (JObj P)
    ∧ stored w' uid P
    ∧ (∀ uid' D', uid' ≠ uid → stored w uid' D' → stored w' uid' D')
    ∧ users (db w') = users (db w).
Proof.
  intros Hc.
  destruct (upsert_snapshot_spec uid c w)
    as (s & w' & Hrun & Hpj & _ & Hfind & Hheap & _ & Husers).
  exists s, w'. split; [done|]. split.
  { rewrite get_snapshot_run. by rewrite Hfind. }
  split; [by rewrite Hheap, Hpj|]. split; [by eapply stored_after_upsert|].
  split; [|done]. intros uid' D' Hne HD'.
  pose proof (find_other_after_upsert uid uid' c w Hne) as Hother.
  rewrite Hrun in Hother. simpl in Hother.
  destruct HD' as [s' D' Hs' HD'|Hs'].
  - apply (stored_row _ _ s'); [by rewrite Hother | by rewrite Hheap].
  - apply stored_none. by rewrite Hother.
Qed.

Lemma upsert_snapshot_round_trip_witness :
  heap Sample.w0 !! 2%positive = Some (JObj {[ "p2" := Sample.bob ]})
  ∧ ∃ snapshot w',
      upsert_snapshot 2 2%positive Sample.w0 = (Return snapshot, w')
      ∧ get_snapshot 2 w' = (Return (Some snapshot), w')
      ∧ heap w' !! PedigreeSnapshot.people_json snapshot
        = Some (JObj {[ "p2" := Sample.bob ]})
      ∧ stored w' 2 {[ "p2" := Sample.bob ]}
      ∧ (∀ uid' D', uid' ≠ 2 → stored Sample.w0 uid' D' → stored w' uid' D')
      ∧ users (db w') = users (db Sample.w0).
Proof.
  assert (heap Sample.w0 !! 2%positive = Some (JObj {[ "p2" := Sample.bob ]}))
    as Hc by (vm_compute; reflexivity).
  split; [exact Hc|].
  exact (upsert_snapshot_round_trip 2 2%positive _ Sample.w0 Hc).
Defined.

(** X2. [upsert_snapshot] keeps the table at one row per account: with a
    row for the account it changes that row and adds none, and the rows of
    the table stay pairwise distinct in [user_id]. *)
Theorem upsert_snapshot_one_row_per_account uid c w :
  one_snapshot_per_account w →
  one_snapshot_per_account (upsert_snapshot uid c w).2
  ∧ (is_Some (find (of_user uid) (snapshots (db w))) →
       List.length (snapshots (db (upsert_snapshot uid c w).2))
       = List.length (snapshots (db w))).
Proof.
  unfold one_snapshot_per_account. intros Hnd.
  destruct (upsert_snapshot_rows uid c w)
    as (s & w' & -> & _ & Hu & _ & _ & _ & Hrows).
  simpl. destruct Hrows as [[Hsome ->]|[Hnone ->]].
  - split; [|intros _; apply length_update_first].
    rewrite fmap_update_first; [done|].
    intros x Hx%of_user_true. congruence.
  - split; [|by rewrite Hnone; intros [? ?]].
    rewrite fmap_app. simpl. apply NoDup_app. split; [done|]. split.
    + intros x Hx Hx'%list_elem_of_singleton. subst x.
      apply list_elem_of_fmap in Hx as (y & Hy & Hin).
      apply list_elem_of_In in Hin.
      pose proof (find_none _ _ Hnone y Hin) as Hf.
      unfold of_user in Hf. apply bool_decide_eq_false in Hf. congruence.
    + apply NoDup_singleton.
Qed.

Lemma upsert_snapshot_one_row_per_account_witness :
  one_snapshot_per_account Sample.w0
  ∧ one_snapshot_per_account (upsert_snapshot 1 2%positive Sample.w0).2
  ∧ (is_Some (find (of_user 1) (snapshots (db Sample.w0))) →
       List.length (snapshots (db (upsert_snapshot 1 2%positive Sample.w0).2))
       = List.length (snapshots (db Sample.w0))).
Proof.
  assert (one_snapshot_per_account Sample.w0) as Hnd.
  { unfold one_snapshot_per_account. simpl. apply NoDup_singleton. }
  split; [exact Hnd|].
  exact (upsert_snapshot_one_row_per_account 1 2%positive Sample.w0 Hnd).
Defined.

(** The two branches of [delete_snapshot]. *)
Lemma delete_snapshot_run uid w :
  delete_snapshot uid w
  = match find (of_user uid) (snapshots (db w)) with
    | Some _ =>
        (Return true,
         set_db {| users := users (db w);
                   snapshots := remove_first (of_user uid) (snapshots (db w));
                   next_user_id := next_user_id (db w);
                   next_snapshot_id := next_snapshot_id (db w) |} w)
    | None => (Return false, w)
    end.
Proof.
  unfold delete_snapshot.
  rewrite (bind_Return _ _ _ _ _ (get_snapshot_run uid w)).
  by destruct (find (of_user uid) (snapshots (db w))).
Qed.

(** X3. [delete_snapshot] returns whether the account had a row. With one
    row per account, the account has no row afterwards and a second delete
    returns [False]; the accounts table, the objects and the rows of the
    other accounts are untouched. *)
Theorem delete_snapshot_removes uid w :
  one_snapshot_per_account w →
  ∃ w',
    delete_snapshot uid w
    = (Return (bool_decide (is_Some (find (of_user uid) (snapshots (db w))))), w')
    ∧ get_snapshot uid w' = (Return None, w')
    ∧ delete_snapshot uid w' = (Return false, w')
    ∧ one_snapshot_per_account w'
    ∧ users (db w') = users (db w)
    ∧ heap w' = heap w
    ∧ (∀ uid', uid' ≠ uid →
         find (of_user uid') (snapshots (db w'))
         = find (of_user uid') (snapshots (db w))).
Proof.
  unfold one_snapshot_per_account. intros Hnd.
  unfold delete_snapshot at 1.
  rewrite (bind_Return _ _ _ _ _ (get_snapshot_run uid w)).
  destruct (find (of_user uid) (snapshots (db w))) as [s|] eqn:Hfind.
  - eexists. split.
    { rewrite bool_decide_eq_true_2 by done. reflexivity. }
    simpl.
    assert (find (of_user uid) (remove_first (of_user uid) (snapshots (db w))) = None)
      as Hgone by by apply find_remove_first_unique.
    split; [by rewrite get_snapshot_run; simpl; rewrite Hgone|].
    split.
    { unfold delete_snapshot.
      erewrite bind_Return by apply get_snapshot_run. simpl. by rewrite Hgone. }
    split; [by apply NoDup_fmap_remove_first|].
    repeat split. intros uid' Hne.
    apply find_remove_first_other. intros x. by apply of_user_other.
  - exists w. split.
    { rewrite bool_decide_eq_false_2; [done|]. by intros [? ?]. }
    split; [by rewrite get_snapshot_run, Hfind|]. split.
    { unfold delete_snapshot.
      erewrite bind_Return by apply get_snapshot_run. by rewrite Hfind. }
    done.
Qed.

Lemma delete_snapshot_removes_witness :
  one_snapshot_per_account Sample.w0
  ∧ ∃ w',
      delete_snapshot 1 Sample.w0
      = (Return (bool_decide (is_Some (find (of_user 1) (snapshots (db Sample.w0))))), w')
      ∧ get_snapshot 1 w' = (Return None, w')
      ∧ delete_snapshot 1 w' = (Return false, w')
      ∧ one_snapshot_per_account w'
      ∧ users (db w') = users (db Sample.w0)
      ∧ heap w' = heap Sample.w0
      ∧ (∀ uid', uid' ≠ 1 →
           find (of_user uid') (snapshots (db w'))
           = find (of_user uid') (snapshots (db Sample.w0))).
Proof.
  assert (one_snapshot_per_account Sample.w0) as Hnd.
  { unfold one_snapshot_per_account. simpl. apply NoDup_singleton. }
  split; [exact Hnd|].
  exact (delete_snapshot_removes 1 Sample.w0 Hnd).
Defined.

(** ** More on the patch *)

(** The patch with a dictionary of upserts and string delete ids, from
    whatever the column holds: a dictionary is the starting document, any
    other JSON value counts as the empty document. The delete ids are the
    elements of a list or the characters of a string. *)
Lemma apply_snapshot_patch_general uid ups dels w D0 U Del v :
  (find (of_user uid) (snapshots (db w)) = None ∧ D0 = ∅)
  ∨ (∃ s pj, find (of_user uid) (snapshots (db w)) = Some s
             ∧ heap w !! PedigreeSnapshot.people_json s = Some pj
             ∧ D0 = match pj with JObj d => d | _ => ∅ end) →
  heap w !! ups = Some (JObj U) →
  heap w !! dels = Some v →
  v = JArr (JStr <$> Del) ∨ (∃ s, v = JStr s ∧ Del = characters s) →
  apply_snapshot_patch uid ups dels w
  = upsert_snapshot uid (fresh (dom (heap w)))
      (set_heap (<[fresh (dom (heap w)) := JObj (U ∪ without Del D0)]> (heap w)) w).
Proof.
  intros Hload Hups Hdels Hv.
  set (c := fresh (dom (heap w))).
  set (w1 := set_heap (<[c := JObj D0]> (heap w)) w).
  assert (heap w1 !! c = Some (JObj D0)) as Hc by apply lookup_insert_eq.
  unfold apply_snapshot_patch.
  rewrite (bind_Return _ _ _ _ _ (get_snapshot_run uid w)).
  assert ((match find (of_user uid) (snapshots (db w)) with
           | Some snapshot =>
               people_json <- deref (PedigreeSnapshot.people_json snapshot) ;;
               match people_json with
               | JObj members => deepcopy members
               | _ => alloc (JObj ∅)
               end
           | None => alloc (JObj ∅)
           end) w = (Return c, w1)) as Hstart.
  { destruct Hload as [[-> ->]|(s & pj & -> & Hpj & ->)]; [done|].
    unfold bind, deref. rewrite Hpj. by destruct pj. }
  rewrite (bind_Return _ _ _ _ _ Hstart).
  assert (iterate dels w1 = (Return (JStr <$> Del), w1)) as Hiter.
  { unfold iterate, bind, deref. simpl.
    rewrite (lookup_alloc_old w dels _ _ Hdels).
    by destruct Hv as [->|(s & -> & ->)]. }
  rewrite (bind_Return _ _ _ _ _ Hiter).
  rewrite (bind_Return _ _ _ _ _ (for_each_pop c Del D0 w1 Hc)).
  set (w2 := set_heap _ w1).
  assert (heap w2 !! c = Some (JObj (without Del D0))) as Hc2
    by apply lookup_insert_eq.
  assert (items ups w2 = (Return (map_to_list U), w2)) as Hitems.
  { unfold items, bind, deref. simpl.
    rewrite lookup_insert_ne by (apply not_eq_sym; by eapply fresh_ne).
    by rewrite (lookup_alloc_old w ups _ _ Hups). }
  rewrite (bind_Return _ _ _ _ _ Hitems).
  rewrite (bind_Return _ _ _ _ _ (for_each_setitem c _ _ w2 Hc2)).
  rewrite overwritten_items. subst w2 w1. simpl.
  unfold set_heap. simpl. by rewrite !insert_insert_eq.
Qed.

(** The document that the row returned by [upsert_snapshot] holds. *)
Lemma upsert_snapshot_document uid c R (w : world) :
  ∃ snapshot w',
    upsert_snapshot uid c (set_heap (<[c := JObj R]> (heap w)) w) = (Return snapshot, w')
    ∧ heap w' = <[c := JObj R]> (heap w)
    ∧ users (db w') = users (db w)
    ∧ calls w' = calls w
    ∧ PedigreeSnapshot.people_json snapshot = c
    ∧ heap w' !! PedigreeSnapshot.people_json snapshot = Some (JObj R)
    ∧ stored w' uid R.
Proof.
  destruct (upsert_snapshot_spec uid c (set_heap (<[c := JObj R]> (heap w)) w))
    as (s & w' & Hrun & Hpj & _ & Hfind & Hheap & Hcalls & Husers).
  exists s, w'. rewrite Hrun. simpl in *.
  assert (heap w' !! PedigreeSnapshot.people_json s = Some (JObj R)) as Hdoc.
  { rewrite Hheap, Hpj. apply lookup_insert_eq. }
  repeat split; try done. by apply (stored_row _ _ s).
Qed.

Lemma stored_starting w uid D :
  stored w uid D →
  (find (of_user uid) (snapshots (db w)) = None ∧ D = ∅)
  ∨ (∃ s pj, find (of_user uid) (snapshots (db w)) = Some s
             ∧ heap w !! PedigreeSnapshot.people_json s = Some pj
             ∧ D = match pj with JObj d => d | _ => ∅ end).
Proof.
  intros [s D' Hs HD|Hs]; [right|left; done]. by exists s, (JObj D').
Qed.

(** X4. A patch that raises has written nothing: the session is the one
    before the call and every object that existed is unchanged. *)
Theorem apply_snapshot_patch_all_or_nothing uid ups dels w e w' :
  apply_snapshot_patch uid ups dels w = (Raise e, w') →
  db w' = db w
  ∧ calls w' = calls w
  ∧ (∀ l, is_Some (heap w !! l) → heap w' !! l = heap w !! l).
Proof.
  intros Hrun.
  destruct (apply_snapshot_patch_outcome uid ups dels w)
    as [(e' & w'' & Hrun' & Hdb & Hcalls & Hframe)|(w1 & d & _ & _ & _ & _ & Hrun')].
  - rewrite Hrun in Hrun'. injection Hrun' as <- <-.
    repeat split; try done. intros l [v Hl]. apply Hframe. by eapply fresh_ne.
  - rewrite Hrun in Hrun'.
    destruct (upsert_snapshot_spec uid (fresh (dom (heap w))) w1)
      as (s & w2 & Hs & _). by rewrite Hs in Hrun'.
Qed.

Lemma apply_snapshot_patch_all_or_nothing_witness :
  apply_snapshot_patch 1 3%positive 3%positive Sample.w0
  = (Raise AttributeError, (apply_snapshot_patch 1 3%positive 3%positive Sample.w0).2)
  ∧ db (apply_snapshot_patch 1 3%positive 3%positive Sample.w0).2 = db Sample.w0
  ∧ calls (apply_snapshot_patch 1 3%positive 3%positive Sample.w0).2 = calls Sample.w0
  ∧ (∀ l, is_Some (heap Sample.w0 !! l) →
       heap (apply_snapshot_patch 1 3%positive 3%positive Sample.w0).2 !! l
       = heap Sample.w0 !! l).
Proof.
  assert (apply_snapshot_patch 1 3%positive 3%positive Sample.w0
          = (Raise AttributeError,
             (apply_snapshot_patch 1 3%positive 3%positive Sample.w0).2)) as Hrun
    by (vm_compute; reflexivity).
  split; [exact Hrun|].
  exact (apply_snapshot_patch_all_or_nothing 1 3%positive 3%positive Sample.w0 _ _ Hrun).
Defined.

Lemma merge_absorbs (U D : gmap string json) Del :
  U ∪ without Del (U ∪ without Del D) = U ∪ without Del D.
Proof.
  apply map_eq. intros k. rewrite !lookup_union, !lookup_without, !lookup_union.
  rewrite lookup_without.
  destruct (U !! k) as [u|]; destruct (decide (k ∈ Del)); destruct (D !! k);
    done.
Qed.

(** X5. Applying the same patch a second time changes nothing more: the
    document after the second run equals the document after the first. *)
Theorem apply_snapshot_patch_idempotent w uid ups dels U Del D :
  stored w uid D →
  heap w !! ups = Some (JObj U) →
  heap w !! dels = Some (JArr (JStr <$> Del)) →
  ∃ s1 w1 s2 w2,
    apply_snapshot_patch uid ups dels w = (Return s1, w1)
    ∧ apply_snapshot_patch uid ups dels w1 = (Return s2, w2)
    ∧ stored w1 uid (U ∪ without Del D)
    ∧ stored w2 uid (U ∪ without Del D).
Proof.
  intros HD Hups Hdels.
  rewrite (apply_snapshot_patch_general uid ups dels w D U Del _
             (stored_starting _ _ _ HD) Hups Hdels (or_introl eq_refl)).
  destruct (upsert_snapshot_document uid (fresh (dom (heap w))) (U ∪ without Del D) w)
    as (s1 & w1 & Hrun1 & Hheap1 & _ & _ & _ & _ & HD1).
  exists s1, w1. rewrite Hrun1.
  assert (heap w1 !! ups = Some (JObj U)) as Hups1.
  { rewrite Hheap1. by apply lookup_alloc_old. }
  assert (heap w1 !! dels = Some (JArr (JStr <$> Del))) as Hdels1.
  { rewrite Hheap1. by apply lookup_alloc_old. }
  rewrite (apply_snapshot_patch_general uid ups dels w1 _ U Del _
             (stored_starting _ _ _ HD1) Hups1 Hdels1 (or_introl eq_refl)).
  rewrite merge_absorbs.
  destruct (upsert_snapshot_document uid (fresh (dom (heap w1))) (U ∪ without Del D) w1)
    as (s2 & w2 & Hrun2 & _ & _ & _ & _ & _ & HD2).
  exists s2, w2. by rewrite Hrun2.
Qed.

Lemma apply_snapshot_patch_idempotent_witness :
  (stored Sample.w0 1 {[ "p1" := Sample.alice ]}
   ∧ heap Sample.w0 !! 2%positive = Some (JObj {[ "p2" := Sample.bob ]})
   ∧ heap Sample.w0 !! 3%positive = Some (JArr (JStr <$> ["p1"])))
  ∧ ∃ s1 w1 s2 w2,
      apply_snapshot_patch 1 2%positive 3%positive Sample.w0 = (Return s1, w1)
      ∧ apply_snapshot_patch 1 2%positive 3%positive w1 = (Return s2, w2)
      ∧ stored w1 1 ({[ "p2" := Sample.bob ]} ∪ without ["p1"] {[ "p1" := Sample.alice ]})
      ∧ stored w2 1 ({[ "p2" := Sample.bob ]} ∪ without ["p1"] {[ "p1" := Sample.alice ]}).
Proof.
  assert (stored Sample.w0 1 {[ "p1" := Sample.alice ]}) as HD.
  { apply (stored_row _ _ Sample.snapshot1); vm_compute; reflexivity. }
  assert (heap Sample.w0 !! 2%positive = Some (JObj {[ "p2" := Sample.bob ]}))
    as Hups by (vm_compute; reflexivity).
  assert (heap Sample.w0 !! 3%positive = Some (JArr (JStr <$> ["p1"])))
    as Hdels by (vm_compute; reflexivity).
  split; [by repeat split|].
  exact (apply_snapshot_patch_idempotent _ _ _ _ _ _ _ HD Hups Hdels).
Defined.

(** X6. A patch of one account, whether it returns or raises, leaves the
    document of every other account as it was. *)
Theorem apply_snapshot_patch_other_accounts uid uid' ups dels w D' :
  uid' ≠ uid →
  stored w uid' D' →
  stored (apply_snapshot_patch uid ups dels w).2 uid' D'.
Proof.
  intros Hne HD'.
  assert (∀ w', (∀ l, l ≠ fresh (dom (heap w)) → heap w' !! l = heap w !! l) →
            find (of_user uid') (snapshots (db w'))
            = find (of_user uid') (snapshots (db w)) →
            stored w' uid' D') as Hkeep.
  { intros w' Hframe Hfind. destruct HD' as [s D' Hs HD'|Hs].
    - apply (stored_row _ _ s); [by rewrite Hfind|].
      rewrite Hframe; [done|]. by eapply fresh_ne.
    - apply stored_none. by rewrite Hfind. }
  destruct (apply_snapshot_patch_outcome uid ups dels w)
    as [(e & w' & -> & Hdb & _ & Hframe)|(w1 & d & Hdb & _ & _ & Hframe & ->)].
  - apply Hkeep; [done|]. simpl. by rewrite Hdb.
  - apply Hkeep.
    + intros l Hl. rewrite writes_nothing_upsert_snapshot. by apply Hframe.
    + rewrite find_other_after_upsert by done. by rewrite Hdb.
Qed.

Lemma apply_snapshot_patch_other_accounts_witness :
  ((2:Z) ≠ 1 ∧ stored Sample.w0 2 ∅)
  ∧ stored (apply_snapshot_patch 1 2%positive 3%positive Sample.w0).2 2 ∅.
Proof.
  assert ((2:Z) ≠ 1) as Hne by discriminate.
  assert (stored Sample.w0 2 ∅) as HD by (apply stored_none; reflexivity).
  split; [by split|].
  exact (apply_snapshot_patch_other_accounts 1 2 2%positive 3%positive Sample.w0 ∅ Hne HD).
Defined.

(** X7. When the account's column holds a JSON value that is not an object,
    the patch starts from the empty document: the stored value is dropped
    and the document afterwards is exactly the upsert map. *)
Theorem apply_snapshot_patch_resets_non_dict w uid ups dels U Del snapshot v :
  get_snapshot uid w = (Return (Some snapshot), w) →
  heap w !! PedigreeSnapshot.people_json snapshot = Some v →
  is_dict v = false →
  heap w !! ups = Some (JObj U) →
  heap w !! dels = Some (JArr (JStr <$> Del)) →
  ∃ snapshot' w',
    apply_snapshot_patch uid ups dels w = (Return snapshot', w')
    ∧ stored w' uid U.
Proof.
  intros Hget Hv Hnot Hups Hdels.
  rewrite get_snapshot_run in Hget. injection Hget as Hfind.
  assert ((find (of_user uid) (snapshots (db w)) = None
           ∧ (∅ : gmap string json) = ∅)
          ∨ (∃ s pj, find (of_user uid) (snapshots (db w)) = Some s
                     ∧ heap w !! PedigreeSnapshot.people_json s = Some pj
                     ∧ (∅ : gmap string json)
                       = match pj with JObj d => d | _ => ∅ end)) as Hstart.
  { right. exists snapshot, v. repeat split; [done..|]. by destruct v. }
  rewrite (apply_snapshot_patch_general uid ups dels w ∅ U Del _
             Hstart Hups Hdels (or_introl eq_refl)).
  rewrite without_empty, (right_id_L ∅ (∪)).
  destruct (upsert_snapshot_document uid (fresh (dom (heap w))) U w)
    as (s' & w' & Hrun & _ & _ & _ & _ & _ & HD).
  by exists s', w'.
Qed.

Lemma apply_snapshot_patch_resets_non_dict_witness :
  (get_snapshot 1 Cases.w1 = (Return (Some Sample.snapshot1), Cases.w1)
   ∧ heap Cases.w1 !! PedigreeSnapshot.people_json Sample.snapshot1
     = Some (JArr [JStr "p1"])
   ∧ is_dict (JArr [JStr "p1"]) = false
   ∧ heap Cases.w1 !! 2%positive = Some (JObj {[ "p2" := Sample.bob ]})
   ∧ heap Cases.w1 !! 5%positive = Some (JArr (JStr <$> [])))
  ∧ ∃ snapshot' w',
      apply_snapshot_patch 1 2%positive 5%positive Cases.w1 = (Return snapshot', w')
      ∧ stored w' 1 {[ "p2" := Sample.bob ]}.
Proof.
  assert (heap Cases.w1 !! PedigreeSnapshot.people_json Sample.snapshot1
          = Some (JArr [JStr "p1"])) as Hv by (vm_compute; reflexivity).
  assert (heap Cases.w1 !! 2%positive = Some (JObj {[ "p2" := Sample.bob ]}))
    as Hups by (vm_compute; reflexivity).
  assert (heap Cases.w1 !! 5%positive = Some (JArr (JStr <$> [])))
    as Hdels by (vm_compute; reflexivity).
  split; [by repeat split|].
  exact (apply_snapshot_patch_resets_non_dict Cases.w1 1 2%positive 5%positive
           _ [] Sample.snapshot1 _ eq_refl Hv eq_refl Hups Hdels).
Defined.



Example string_deletes_keep_the_whole_key :
  (∅ ∪ without (characters "ab")
         {[ "a" := Sample.alice; "b" := Sample.bob; "ab" := Sample.alice ]}
   : gmap string json)
  = {[ "ab" := Sample.alice ]}.
Proof. vm_compute. reflexivity. Qed.

(** X9. A patch can be sent in two steps: its deletes alone and then its
    upserts alone leave the document that the whole patch leaves. *)
Theorem apply_snapshot_patch_split w uid ups dels no_upserts no_deletes U Del D :
  stored w uid D →
  heap w !! ups = Some (JObj U) →
  heap w !! dels = Some (JArr (JStr <$> Del)) →
  heap w !! no_upserts = Some (JObj ∅) →
  heap w !! no_deletes = Some (JArr []) →
  (∃ s1 w1 s2 w2,
     apply_snapshot_patch uid no_upserts dels w = (Return s1, w1)
     ∧ apply_snapshot_patch uid ups no_deletes w1 = (Return s2, w2)
     ∧ stored w2 uid (U ∪ without Del D))
  ∧ (∃ s w', apply_snapshot_patch uid ups dels w = (Return s, w')
             ∧ stored w' uid (U ∪ without Del D)).
Proof.
  intros HD Hups Hdels Hnone Hnil. split.
  - rewrite (apply_snapshot_patch_general uid no_upserts dels w D ∅ Del _
               (stored_starting _ _ _ HD) Hnone Hdels (or_introl eq_refl)).
    rewrite (left_id_L ∅ (∪)).
    destruct (upsert_snapshot_document uid (fresh (dom (heap w))) (without Del D) w)
      as (s1 & w1 & Hrun1 & Hheap1 & _ & _ & _ & _ & HD1).
    exists s1, w1. rewrite Hrun1.
    assert (heap w1 !! ups = Some (JObj U)) as Hups1.
    { rewrite Hheap1. by apply lookup_alloc_old. }
    assert (heap w1 !! no_deletes = Some (JArr (JStr <$> []))) as Hnil1.
    { rewrite Hheap1. by apply lookup_alloc_old. }
    rewrite (apply_snapshot_patch_general uid ups no_deletes w1 _ U [] _
               (stored_starting _ _ _ HD1) Hups1 Hnil1 (or_introl eq_refl)).
    destruct (upsert_snapshot_document uid (fresh (dom (heap w1)))
                (U ∪ without [] (without Del D)) w1)
      as (s2 & w2 & Hrun2 & _ & _ & _ & _ & _ & HD2).
    exists s2, w2. by rewrite Hrun2.
  - rewrite (apply_snapshot_patch_general uid ups dels w D U Del _
               (stored_starting _ _ _ HD) Hups Hdels (or_introl eq_refl)).
    destruct (upsert_snapshot_document uid (fresh (dom (heap w))) (U ∪ without Del D) w)
      as (s & w' & Hrun & _ & _ & _ & _ & _ & HD').
    by exists s, w'.
Qed.

Lemma apply_snapshot_patch_split_witness :
  (stored Sample.w0 1 {[ "p1" := Sample.alice ]}
   ∧ heap Sample.w0 !! 2%positive = Some (JObj {[ "p2" := Sample.bob ]})
   ∧ heap Sample.w0 !! 3%positive = Some (JArr (JStr <$> ["p1"]))
   ∧ heap Sample.w0 !! 4%positive = Some (JObj ∅)
   ∧ heap Sample.w0 !! 5%positive = Some (JArr []))
  ∧ (∃ s1 w1 s2 w2,
       apply_snapshot_patch 1 4%positive 3%positive Sample.w0 = (Return s1, w1)
       ∧ apply_snapshot_patch 1 2%positive 5%positive w1 = (Return s2, w2)
       ∧ stored w2 1 ({[ "p2" := Sample.bob ]}
                      ∪ without ["p1"] {[ "p1" := Sample.alice ]}))
  ∧ (∃ s w', apply_snapshot_patch 1 2%positive 3%positive Sample.w0 = (Return s, w')
             ∧ stored w' 1 ({[ "p2" := Sample.bob ]}
                            ∪ without ["p1"] {[ "p1" := Sample.alice ]})).
Proof.
  assert (stored Sample.w0 1 {[ "p1" := Sample.alice ]}) as HD.
  { apply (stored_row _ _ Sample.snapshot1); vm_compute; reflexivity. }
  assert (heap Sample.w0 !! 2%positive = Some (JObj {[ "p2" := Sample.bob ]}))
    as Hups by (vm_compute; reflexivity).
  assert (heap Sample.w0 !! 3%positive = Some (JArr (JStr <$> ["p1"])))
    as Hdels by (vm_compute; reflexivity).
  assert (heap Sample.w0 !! 4%positive = Some (JObj ∅))
    as Hnone by (vm_compute; reflexivity).
  assert (heap Sample.w0 !! 5%positive = Some (JArr []))
    as Hnil by (vm_compute; reflexivity).
  split; [by repeat split|].
  exact (apply_snapshot_patch_split _ _ _ _ _ _ _ _ _ HD Hups Hdels Hnone Hnil).
Defined.

(** ** More on the handlers *)

Section MoreHandlers.

Variable settings : Settings.t.
Variable verify_oauth2_token : string → string → option Claims.t.
Variable urlopen_userinfo : string → userinfo_reply.
Variable encode_utf8 : string → option bytes.
Variable b64decode : bytes → option bytes.
Variable gzip_decompress : bytes → option bytes.
Variable decode_utf8 : bytes → option string.
Variable json_loads : string → option json.

Lemma authenticate_cases authorization w :
  (extract_bearer_token authorization = None
   ∧ authenticate urlopen_userinfo authorization w = (Return None, w))
  ∨ (∃ token,
       extract_bearer_token authorization = Some token
       ∧ ((∃ c, urlopen_userinfo token = UserinfoClaims c
                ∧ authenticate urlopen_userinfo authorization w
                  = (Return (Some (verified c)), log_call (Userinfo token) w))
          ∨ authenticate urlopen_userinfo authorization w
            = (Raise (HTTPException 401 "invalid access token"),
               log_call (Userinfo token) w))).
Proof.
  destruct (extract_bearer_token authorization) as [token|] eqn:Htoken.
  - right. exists token. split; [done|].
    destruct (urlopen_userinfo token) as [| |c] eqn:Hreply.
    + right. apply authenticate_rejected; [done|]. congruence.
    + right. apply authenticate_rejected; [done|]. congruence.
    + left. exists c. split; [done|]. by apply authenticate_verified.
  - left. split; [done|]. by apply authenticate_no_token.
Qed.

Lemma get_user_by_google_sub_run google_sub w :
  get_user_by_google_sub google_sub w
  = (Return (find (has_google_sub (Some google_sub)) (users (db w))), w).
Proof. done. Qed.

(** A request that passes the owner check goes on to the handler's own
    work with the account found. *)
Lemma owner_checked_pass {A} google_sub authorization (k : User.t → M A)
    token c user w :
  extract_bearer_token authorization = Some token →
  urlopen_userinfo token = UserinfoClaims c →
  Claims.sub c = Some google_sub →
  get_user_by_google_sub google_sub w = (Return (Some user), w) →
  owner_checked urlopen_userinfo google_sub authorization k w
  = k user (log_call (Userinfo token) w).
Proof.
  intros Htoken Hreply Hsub Huser. unfold owner_checked.
  rewrite (bind_Return _ _ _ _ _ (authenticate_verified _ _ _ _ w Htoken Hreply)).
  assert (negb (bool_decide (Identity.google_sub (verified c) = Some google_sub))
          = false) as ->.
  { simpl. by rewrite bool_decide_eq_true_2. }
  rewrite get_user_by_google_sub_run in Huser. injection Huser as Huser.
  rewrite (bind_Return _ _ _ _ _
             (get_user_by_google_sub_run google_sub (log_call (Userinfo token) w))).
  simpl. by rewrite Huser.
Qed.

(** Every other request stops at the owner check with one of its four
    errors, objects and session untouched. *)
Lemma owner_checked_cases {A} google_sub authorization (k : User.t → M A) w :
  (∃ e w', owner_checked urlopen_userinfo google_sub authorization k w = (Raise e, w')
           ∧ access_error e ∧ db w' = db w ∧ heap w' = heap w)
  ∨ (∃ token c user,
       extract_bearer_token authorization = Some token
       ∧ urlopen_userinfo token = UserinfoClaims c
       ∧ Claims.sub c = Some google_sub
       ∧ get_user_by_google_sub google_sub w = (Return (Some user), w)).
Proof.
  unfold owner_checked.
  destruct (authenticate_cases authorization w)
    as [[_ Hauth]|(token & Htoken & [(c & Hreply & Hauth)|Hauth])].
  - left. rewrite (bind_Return _ _ _ _ _ Hauth). eexists _, _.
    split; [reflexivity|]. unfold access_error. auto.
  - rewrite (bind_Return _ _ _ _ _ Hauth).
    destruct (decide (Claims.sub c = Some google_sub)) as [Hsub|Hsub].
    + destruct (find (has_google_sub (Some google_sub)) (users (db w)))
        as [user|] eqn:Huser.
      * right. exists token, c, user. repeat split; try done.
        by rewrite get_user_by_google_sub_run, Huser.
      * left. simpl. rewrite bool_decide_eq_true_2 by done. simpl.
        rewrite (bind_Return _ _ _ _ _
                   (get_user_by_google_sub_run google_sub
                      (log_call (Userinfo token) w))).
        simpl. rewrite Huser. eexists _, _. split; [reflexivity|].
        unfold access_error. auto.
    + left. simpl. rewrite bool_decide_eq_false_2 by done. simpl.
      eexists _, _. split; [reflexivity|]. unfold access_error. auto.
  - left. rewrite (bind_Raise _ _ _ _ _ Hauth). eexists _, _.
    split; [reflexivity|]. unfold access_error. auto.
Qed.

Lemma get_pedigree_owner_checked google_sub authorization :
  get_pedigree urlopen_userinfo google_sub authorization
  = owner_checked urlopen_userinfo google_sub authorization
      (λ user,
         snapshot <- get_snapshot (User.id user) ;;
         people_by_id <-
           match snapshot with
           | Some snapshot => deref (PedigreeSnapshot.people_json snapshot)
           | None => ret (JObj ∅)
           end ;;
         SnapshotResponse_init (User.id user) people_by_id).
Proof. reflexivity. Qed.

Lemma put_pedigree_owner_checked google_sub payload authorization :
  put_pedigree urlopen_userinfo google_sub payload authorization
  = owner_checked urlopen_userinfo google_sub authorization
      (λ user,
         people_by_id <- alloc (JObj (SnapshotUpsertRequest.people_by_id payload)) ;;
         snapshot <- upsert_snapshot (User.id user) people_by_id ;;
         people_json <- deref (PedigreeSnapshot.people_json snapshot) ;;
         SnapshotResponse_init (User.id user) people_json).
Proof. reflexivity. Qed.

Lemma remove_pedigree_owner_checked google_sub authorization :
  remove_pedigree urlopen_userinfo google_sub authorization
  = owner_checked urlopen_userinfo google_sub authorization
      (λ user, delete_snapshot (User.id user)).
Proof. reflexivity. Qed.

(** What [get_pedigree] answers once the owner check has passed. *)
Lemma get_pedigree_document uid D w :
  stored w uid D →
  (snapshot <- get_snapshot uid ;;
   people_by_id <-
     match snapshot with
     | Some snapshot => deref (PedigreeSnapshot.people_json snapshot)
     | None => ret (JObj ∅)
     end ;;
   SnapshotResponse_init uid people_by_id) w
  = (Return {| SnapshotResponse.user_id := uid;
               SnapshotResponse.people_by_id := D |}, w).
Proof.
  intros HD. rewrite (bind_Return _ _ _ _ _ (get_snapshot_run uid w)).
  destruct HD as [s D Hs HD|Hs]; rewrite Hs; [|done].
  unfold bind, deref. by rewrite HD.
Qed.

Lemma stored_log_call c w uid D :
  stored w uid D → stored (log_call c w) uid D.
Proof. intros HD. by apply (stored_mono w). Qed.

(** X10. [get_pedigree] only reads: whatever the request and whatever the
    answer, the session and the objects are the ones before the request. *)
Theorem get_pedigree_reads_only google_sub authorization w :
  db (get_pedigree urlopen_userinfo google_sub authorization w).2 = db w
  ∧ heap (get_pedigree urlopen_userinfo google_sub authorization w).2 = heap w.
Proof.
  rewrite get_pedigree_owner_checked.
  destruct (owner_checked_cases google_sub authorization
              (λ user,
                 snapshot <- get_snapshot (User.id user) ;;
                 people_by_id <-
                   match snapshot with
                   | Some snapshot => deref (PedigreeSnapshot.people_json snapshot)
                   | None => ret (JObj ∅)
                   end ;;
                 SnapshotResponse_init (User.id user) people_by_id) w)
    as [(e & w' & -> & _ & Hdb & Hheap)|(token & c & user & H1 & H2 & H3 & H4)];
    [done|].
  rewrite (owner_checked_pass _ _ _ _ _ _ _ H1 H2 H3 H4).
  rewrite (bind_Return _ _ _ _ _ (get_snapshot_run _ _)).
  destruct (find _ _) as [s|]; simpl.
  - unfold bind, deref. simpl.
    destruct (heap w !! PedigreeSnapshot.people_json s) as [v|]; [|done].
    by destruct v.
  - done.
Qed.

(** X11. For the owner of an existing account, [get_pedigree] answers with
    the account's id and its stored document, the empty map when the account
    has no snapshot yet. *)
Theorem get_pedigree_returns_document google_sub authorization token c user D w :
  extract_bearer_token authorization = Some token →
  urlopen_userinfo token = UserinfoClaims c →
  Claims.sub c = Some google_sub →
  get_user_by_google_sub google_sub w = (Return (Some user), w) →
  stored w (User.id user) D →
  get_pedigree urlopen_userinfo google_sub authorization w
  = (Return {| SnapshotResponse.user_id := User.id user;
               SnapshotResponse.people_by_id := D |},
     log_call (Userinfo token) w).
Proof.
  intros H1 H2 H3 H4 HD. rewrite get_pedigree_owner_checked.
  rewrite (owner_checked_pass _ _ _ _ _ _ _ H1 H2 H3 H4).
  apply get_pedigree_document. by apply stored_log_call.
Qed.

(** X12. A document that the owner puts is the document the owner gets:
    [put_pedigree] answers with the request's [people_by_id], a following
    [get_pedigree] answers the same, and the accounts table is untouched. *)
Theorem put_then_get_pedigree google_sub payload authorization token c user w :
  extract_bearer_token authorization = Some token →
  urlopen_userinfo token = UserinfoClaims c →
  Claims.sub c = Some google_sub →
  get_user_by_google_sub google_sub w = (Return (Some user), w) →
  ∃ w1,
    put_pedigree urlopen_userinfo google_sub payload authorization w
    = (Return {| SnapshotResponse.user_id := User.id user;
                 SnapshotResponse.people_by_id :=
                   SnapshotUpsertRequest.people_by_id payload |}, w1)
    ∧ get_pedigree urlopen_userinfo google_sub authorization w1
      = (Return {| SnapshotResponse.user_id := User.id user;
                   SnapshotResponse.people_by_id :=
                     SnapshotUpsertRequest.people_by_id payload |},
         log_call (Userinfo token) w1)
    ∧ users (db w1) = users (db w).
Proof.
  intros H1 H2 H3 H4. rewrite put_pedigree_owner_checked.
  rewrite (owner_checked_pass _ _ _ _ _ _ _ H1 H2 H3 H4).
  set (w0 := log_call (Userinfo token) w).
  set (P := SnapshotUpsertRequest.people_by_id payload).
  destruct (upsert_snapshot_document (User.id user) (fresh (dom (heap w0))) P w0)
    as (s & w1 & Hrun & Hheap & Husers & _ & _ & Hdoc & HD).
  exists w1.
  assert (alloc (JObj P) w0
          = (Return (fresh (dom (heap w0))),
             set_heap (<[fresh (dom (heap w0)) := JObj P]> (heap w0)) w0))
    as Halloc by done.
  assert (deref (PedigreeSnapshot.people_json s) w1 = (Return (JObj P), w1))
    as Hderef by (unfold deref; by rewrite Hdoc).
  split.
  { rewrite (bind_Return _ _ _ _ _ Halloc), (bind_Return _ _ _ _ _ Hrun).
    by rewrite (bind_Return _ _ _ _ _ Hderef). }
  split; [|done].
  rewrite get_pedigree_owner_checked.
  assert (get_user_by_google_sub google_sub w1 = (Return (Some user), w1)) as H4'.
  { rewrite get_user_by_google_sub_run in *. rewrite Husers.
    injection H4 as H4. simpl. by rewrite H4. }
  rewrite (owner_checked_pass _ _ _ _ _ _ _ H1 H2 H3 H4').
  apply get_pedigree_document. by apply stored_log_call.
Qed.

(** X13. [remove_pedigree] by the owner answers whether a snapshot existed.
    With one row per account, a following [get_pedigree] answers with the
    empty map (not 404: the account is still there), and a second
    [remove_pedigree] answers [False]. *)
Theorem remove_then_get_pedigree google_sub authorization token c user w :
  extract_bearer_token authorization = Some token →
  urlopen_userinfo token = UserinfoClaims c →
  Claims.sub c = Some google_sub →
  get_user_by_google_sub google_sub w = (Return (Some user), w) →
  one_snapshot_per_account w →
  ∃ w1,
    remove_pedigree urlopen_userinfo google_sub authorization w
    = (Return (bool_decide
                 (is_Some (find (of_user (User.id user)) (snapshots (db w))))), w1)
    ∧ users (db w1) = users (db w)
    ∧ get_pedigree urlopen_userinfo google_sub authorization w1
      = (Return {| SnapshotResponse.user_id := User.id user;
                   SnapshotResponse.people_by_id := ∅ |},
         log_call (Userinfo token) w1)
    ∧ (remove_pedigree urlopen_userinfo google_sub authorization w1).1
      = Return false.
Proof.
  intros H1 H2 H3 H4 Hnd. rewrite remove_pedigree_owner_checked.
  rewrite (owner_checked_pass _ _ _ _ _ _ _ H1 H2 H3 H4).
  set (w0 := log_call (Userinfo token) w).
  rewrite (delete_snapshot_run (User.id user) w0).
  assert (∃ w1, (match find (of_user (User.id user)) (snapshots (db w0)) with
                 | Some _ =>
                     (Return true,
                      set_db {| users := users (db w0);
                                snapshots := remove_first (of_user (User.id user))
                                               (snapshots (db w0));
                                next_user_id := next_user_id (db w0);
                                next_snapshot_id := next_snapshot_id (db w0) |} w0)
                 | None => (Return false, w0)
                 end)
                = (Return (bool_decide
                             (is_Some (find (of_user (User.id user))
                                         (snapshots (db w))))), w1)
                ∧ users (db w1) = users (db w)
                ∧ find (of_user (User.id user)) (snapshots (db w1)) = None)
    as (w1 & -> & Husers & Hgone).
  { simpl. destruct (find (of_user (User.id user)) (snapshots (db w))) eqn:Hfind.
    - eexists. rewrite bool_decide_eq_true_2 by done. split; [reflexivity|].
      split; [done|]. simpl. by apply find_remove_first_unique.
    - exists w0. rewrite bool_decide_eq_false_2 by (by intros [? ?]). done. }
  exists w1. split; [done|]. split; [done|].
  assert (get_user_by_google_sub google_sub w1 = (Return (Some user), w1)) as H4'.
  { rewrite get_user_by_google_sub_run in *. rewrite Husers.
    injection H4 as H4. by rewrite H4. }
  split.
  - rewrite get_pedigree_owner_checked.
    rewrite (owner_checked_pass _ _ _ _ _ _ _ H1 H2 H3 H4').
    apply get_pedigree_document. by apply stored_none.
  - rewrite (owner_checked_pass _ _ _ _ _ _ _ H1 H2 H3 H4').
    rewrite delete_snapshot_run. simpl. by rewrite Hgone.
Qed.

(** X14. A verified owner who has no account gets 404 ["user not found"]
    from each pedigree handler; nothing is created for them. *)
Theorem pedigree_account_missing google_sub authorization token c put_payload
    patch_payload w :
  extract_bearer_token authorization = Some token →
  urlopen_userinfo token = UserinfoClaims c →
  Claims.sub c = Some google_sub →
  get_user_by_google_sub google_sub w = (Return None, w) →
  get_pedigree urlopen_userinfo google_sub authorization w
  = (Raise (HTTPException 404 "user not found"), log_call (Userinfo token) w)
  ∧ put_pedigree urlopen_userinfo google_sub put_payload authorization w
    = (Raise (HTTPException 404 "user not found"), log_call (Userinfo token) w)
  ∧ remove_pedigree urlopen_userinfo google_sub authorization w
    = (Raise (HTTPException 404 "user not found"), log_call (Userinfo token) w)
  ∧ patch_pedigree urlopen_userinfo encode_utf8 b64decode gzip_decompress
      decode_utf8 json_loads google_sub patch_payload authorization w
    = (Raise (HTTPException 404 "user not found"), log_call (Userinfo token) w).
Proof.
  intros Htoken Hreply Hsub Huser.
  pose proof (authenticate_verified _ _ _ _ w Htoken Hreply) as Hauth.
  assert (negb (bool_decide (Identity.google_sub (verified c) = Some google_sub))
          = false) as Heq.
  { simpl. by rewrite bool_decide_eq_true_2. }
  assert (get_user_by_google_sub google_sub (log_call (Userinfo token) w)
          = (Return None, log_call (Userinfo token) w)) as Huser'.
  { rewrite get_user_by_google_sub_run in *. injection Huser as Huser.
    simpl. by rewrite Huser. }
  repeat split.
  - unfold get_pedigree. authenticated Hauth. rewrite Heq.
    by rewrite (bind_Return _ _ _ _ _ Huser').
  - unfold put_pedigree. authenticated Hauth. rewrite Heq.
    by rewrite (bind_Return _ _ _ _ _ Huser').
  - unfold remove_pedigree. authenticated Hauth. rewrite Heq.
    by rewrite (bind_Return _ _ _ _ _ Huser').
  - unfold patch_pedigree. authenticated Hauth. rewrite Heq.
    by rewrite (bind_Return _ _ _ _ _ Huser').
Qed.

(** *** Login *)

Lemma upsert_user_run identity w :
  ∃ user w',
    upsert_user identity w = (Return user, w')
    ∧ heap w' = heap w
    ∧ calls w' = calls w
    ∧ snapshots (db w') = snapshots (db w)
    ∧ User.google_sub user = Identity.google_sub identity
    ∧ find (has_google_sub (Identity.google_sub identity)) (users (db w')) = Some user.
Proof.
  unfold upsert_user, session, commit, bind, ret. simpl.
  destruct (find (has_google_sub (Identity.google_sub identity)) (users (db w)))
    as [existing|] eqn:Hfind; simpl.
  - assert (User.google_sub existing = Identity.google_sub identity) as Hsub.
    { apply find_some in Hfind as [_ H]. by apply has_google_sub_true in H. }
    eexists _, _. split; [reflexivity|]. simpl. repeat split; [done|].
    apply (find_update_first _ (λ _, _) _ _ Hfind).
    by apply has_google_sub_true.
  - eexists _, _. split; [reflexivity|]. simpl. repeat split.
    apply find_app_None; [done|]. by apply has_google_sub_true.
Qed.

Lemma verify_google_identity_cases payload w :
  verify_google_identity settings verify_oauth2_token payload w
  = (Return (asserted payload), w)
  ∨ (∃ t a,
       GoogleLoginRequest.id_token payload = Some t ∧ t ≠ ""
       ∧ Settings.google_client_id settings = Some a ∧ a ≠ ""
       ∧ verify_google_identity settings verify_oauth2_token payload w
         = (match verify_oauth2_token t a with
            | Some c => Return (verified c)
            | None => Raise (LibraryError "verify_oauth2_token")
            end, log_call (VerifyOAuth2Token t a) w)).
Proof.
  unfold verify_google_identity.
  destruct (GoogleLoginRequest.id_token payload) as [t|]; [|by left].
  destruct (Settings.google_client_id settings) as [a|]; [|by left].
  simpl. destruct (decide (t = "")) as [->|Ht]; [by left|].
  destruct (decide (a = "")) as [->|Ha].
  { left. by rewrite bool_decide_eq_false_2. }
  right. exists t, a. rewrite !bool_decide_eq_false_2 by done. simpl.
  repeat split; try done. by destruct (verify_oauth2_token t a).
Qed.

(** X15. Without a bearer token, and with a non-empty identity token and a
    configured audience, the outcome of [google_login] is the verifier's:
    a token it rejects gives 401 ["invalid id token"] and no account is
    touched, a token it accepts logs in the verified identity. The subject,
    email, name and photo asserted in the body play no part. *)
Theorem google_login_id_token_path payload authorization t a w :
  extract_bearer_token authorization = None →
  GoogleLoginRequest.id_token payload = Some t → t ≠ "" →
  Settings.google_client_id settings = Some a → a ≠ "" →
  let out := google_login settings verify_oauth2_token urlopen_userinfo
               payload authorization w in
  match verify_oauth2_token t a with
  | Some c => out = login_as (verified c) (log_call (VerifyOAuth2Token t a) w)
  | None => out = (Raise (HTTPException 401 "invalid id token"),
                   log_call (VerifyOAuth2Token t a) w)
  end.
Proof.
  intros Hno Ht Htne Ha Hane out. subst out.
  rewrite google_login_unfold.
  rewrite (bind_Return _ _ _ _ _ (authenticate_no_token _ _ w Hno)).
  unfold bind at 1. unfold try_except, verify_google_identity.
  rewrite Ht, Ha. simpl. rewrite !bool_decide_eq_false_2 by done. simpl.
  by destruct (verify_oauth2_token t a).
Qed.



(** *** Inline patches and envelopes that decode to the wrong shape *)

Lemma patch_response_run user ups dels U Del D w :
  stored w (User.id user) D →
  heap w !! ups = Some (JObj U) →
  heap w !! dels = Some (JArr (JStr <$> Del)) →
  ∃ w',
    patch_response user ups dels w
    = (Return {| SnapshotResponse.user_id := User.id user;
                 SnapshotResponse.people_by_id := U ∪ without Del D |}, w')
    ∧ stored w' (User.id user) (U ∪ without Del D)
    ∧ users (db w') = users (db w).
Proof.
  intros HD Hups Hdels. unfold patch_response.
  pose proof (apply_snapshot_patch_general (User.id user) ups dels w D U Del _
                (stored_starting _ _ _ HD) Hups Hdels (or_introl eq_refl)) as Hpatch.
  destruct (upsert_snapshot_document (User.id user) (fresh (dom (heap w)))
              (U ∪ without Del D) w)
    as (s & w' & Hrun & _ & Husers & _ & _ & Hdoc & HD').
  rewrite Hrun in Hpatch.
  exists w'. rewrite (bind_Return _ _ _ _ _ Hpatch).
  assert (deref (PedigreeSnapshot.people_json s) w'
          = (Return (JObj (U ∪ without Del D)), w')) as Hderef
    by (unfold deref; by rewrite Hdoc).
  by rewrite (bind_Return _ _ _ _ _ Hderef).
Qed.

(** X18. A patch that is not compressed uses the request's own [upserts]
    and [deletes], whatever [payload_b64] holds: the owner gets the merged
    document back, and a following [get_pedigree] answers the same. *)
Theorem patch_pedigree_inline_then_get google_sub payload authorization token c
    user D w :
  extract_bearer_token authorization = Some token →
  urlopen_userinfo token = UserinfoClaims c →
  Claims.sub c = Some google_sub →
  get_user_by_google_sub google_sub w = (Return (Some user), w) →
  SnapshotPatchRequest.compressed payload = false →
  stored w (User.id user) D →
  ∃ w1,
    patch_pedigree urlopen_userinfo encode_utf8 b64decode gzip_decompress
      decode_utf8 json_loads google_sub payload authorization w
    = (Return {| SnapshotResponse.user_id := User.id user;
                 SnapshotResponse.people_by_id :=
                   SnapshotPatchRequest.upserts payload
                   ∪ without (SnapshotPatchRequest.deletes payload) D |}, w1)
    ∧ get_pedigree urlopen_userinfo google_sub authorization w1
      = (Return {| SnapshotResponse.user_id := User.id user;
                   SnapshotResponse.people_by_id :=
                     SnapshotPatchRequest.upserts payload
                     ∪ without (SnapshotPatchRequest.deletes payload) D |},
         log_call (Userinfo token) w1).
Proof.
  intros H1 H2 H3 H4 Hinline HD.
  rewrite (patch_pedigree_authorized _ _ _ _ _ _ _ _ _ _ _ _ _ H1 H2 H3 H4).
  rewrite Hinline.
  set (w0 := log_call (Userinfo token) w).
  set (l1 := fresh (dom (heap w0))).
  set (w0a := set_heap (<[l1 := JObj (SnapshotPatchRequest.upserts payload)]> (heap w0)) w0).
  set (l2 := fresh (dom (heap w0a))).
  set (w0b := set_heap
                (<[l2 := JArr (JStr <$> SnapshotPatchRequest.deletes payload)]> (heap w0a))
                w0a).
  rewrite (bind_Return _ _ w0 l1 w0a) by done.
  rewrite (bind_Return _ _ w0a l2 w0b) by done.
  rewrite (bind_Return _ _ w0b (l1, l2) w0b) by done.
  assert (stored w0b (User.id user) D) as HD0.
  { apply (stored_mono w); [done..|]. intros l v Hl. subst w0b. simpl.
    apply (lookup_alloc_old w0a). subst w0a. simpl.
    by apply (lookup_alloc_old w0). }
  assert (heap w0b !! l1 = Some (JObj (SnapshotPatchRequest.upserts payload))) as Hl1.
  { subst w0b. simpl. apply (lookup_alloc_old w0a). subst w0a. simpl.
    apply lookup_insert_eq. }
  assert (heap w0b !! l2
          = Some (JArr (JStr <$> SnapshotPatchRequest.deletes payload))) as Hl2.
  { subst w0b. simpl. apply lookup_insert_eq. }
  destruct (patch_response_run user l1 l2 _ _ D w0b HD0 Hl1 Hl2)
    as (w1 & Hrun & HD1 & Husers).
  exists w1. split; [done|].
  rewrite get_pedigree_owner_checked.
  assert (get_user_by_google_sub google_sub w1 = (Return (Some user), w1)) as H4'.
  { rewrite get_user_by_google_sub_run in *. rewrite Husers.
    injection H4 as H4. simpl. by rewrite H4. }
  rewrite (owner_checked_pass _ _ _ _ _ _ _ H1 H2 H3 H4').
  apply get_pedigree_document. by apply stored_log_call.
Qed.



(** *** Rows that hold dictionaries *)

Lemma well_formed_extend w w' :
  well_formed w →
  snapshots (db w') = snapshots (db w) →
  (∀ l v, heap w !! l = Some v → heap w' !! l = Some v) →
  well_formed w'.
Proof.
  intros Hwf Hrows Hext s Hs. rewrite Hrows in Hs.
  destruct (Hwf s Hs) as [D HD]. exists D. by apply Hext.
Qed.

Lemma preserves_unchanged {A} I (m : M A) :
  (∀ w, (m w).2 = w) → preserves I m.
Proof. intros H w Hw. by rewrite H. Qed.

Lemma preserves_try_except {A} I (body : M A) handler :
  preserves I body → (∀ e, preserves I (handler e)) →
  preserves I (try_except body handler).
Proof.
  intros Hb Hh w Hw. unfold try_except. specialize (Hb w Hw).
  destruct (body w) as [[a|e] w1]; simpl in *; [done|]. by apply Hh.
Qed.

Lemma preserves_well_formed_alloc v : preserves well_formed (alloc v).
Proof.
  intros w Hwf. apply (well_formed_extend w); [done..|].
  intros l x Hl. by apply lookup_alloc_old.
Qed.

Lemma preserves_library {A} I origin (r : option A) : preserves I (library origin r).
Proof. apply preserves_unchanged. intros w. by destruct r. Qed.

Lemma well_formed_upsert uid c d w :
  well_formed w → heap w !! c = Some (JObj d) →
  well_formed (upsert_snapshot uid c w).2.
Proof.
  intros Hwf Hc.
  destruct (upsert_snapshot_rows uid c w)
    as (s & w' & -> & Hpj & _ & Hheap & _ & _ & Hrows).
  simpl. intros s' Hs'. rewrite Hheap.
  assert (s' = s ∨ s' ∈ snapshots (db w)) as [-> |Hin].
  { destruct Hrows as [[_ Hr]|[_ Hr]]; rewrite Hr in Hs'.
    - apply elem_of_update_first in Hs' as [?|(x & _ & _ & ->)]; auto.
    - apply elem_of_app in Hs' as [?|Hs'']; [auto|].
      apply list_elem_of_singleton in Hs''. auto. }
  - exists d. by rewrite Hpj.
  - by apply Hwf.
Qed.

Lemma preserves_well_formed_patch uid ups dels :
  preserves well_formed (apply_snapshot_patch uid ups dels).
Proof.
  intros w Hwf.
  assert (∀ w1, db w1 = db w →
            (∀ l, l ≠ fresh (dom (heap w)) → heap w1 !! l = heap w !! l) →
            well_formed w1) as Hkeep.
  { intros w1 Hdb Hframe. apply (well_formed_extend w); [done|by rewrite Hdb|].
    intros l v Hl. rewrite Hframe; [done|]. by eapply fresh_ne. }
  destruct (apply_snapshot_patch_outcome uid ups dels w)
    as [(e & w' & -> & Hdb & _ & Hframe)|(w1 & d & Hdb & _ & Hc & Hframe & ->)].
  - by apply Hkeep.
  - apply (well_formed_upsert _ _ d); [by apply Hkeep | done].
Qed.

Lemma preserves_well_formed_authenticate authorization :
  preserves well_formed (authenticate urlopen_userinfo authorization).
Proof.
  intros w Hwf.
  destruct (authenticate_cases authorization w)
    as [[_ ->]|(token & _ & [(c & _ & ->)| ->])]; done.
Qed.

Lemma preserves_well_formed_owner_checked {A} google_sub authorization
    (k : User.t → M A) :
  (∀ user, preserves well_formed (k user)) →
  preserves well_formed (owner_checked urlopen_userinfo google_sub authorization k).
Proof.
  intros Hk. apply preserves_bind; [apply preserves_well_formed_authenticate|].
  intros [identity|]; [|by apply preserves_unchanged].
  destruct (negb _); [by apply preserves_unchanged|].
  apply preserves_bind; [by apply preserves_unchanged|].
  intros [user|]; [apply Hk | by apply preserves_unchanged].
Qed.

Lemma preserves_well_formed_login_as identity :
  preserves well_formed (login_as identity).
Proof.
  intros w Hwf. unfold login_as. destruct (_ || _); [done|].
  destruct (upsert_user_run identity w) as (user & w' & Hrun & Hheap & _ & Hrows & _).
  rewrite (bind_Return _ _ _ _ _ Hrun). simpl.
  apply (well_formed_extend w); [done..|]. intros l v. by rewrite Hheap.
Qed.

Lemma preserves_well_formed_verify payload :
  preserves well_formed (verify_google_identity settings verify_oauth2_token payload).
Proof.
  intros w Hwf.
  destruct (verify_google_identity_cases payload w)
    as [-> |(t & a & _ & _ & _ & _ & ->)]; done.
Qed.

Lemma preserves_SnapshotResponse_init I uid v :
  preserves I (SnapshotResponse_init uid v).
Proof. apply preserves_unchanged. intros w. by destruct v. Qed.

(** X20. Every handler keeps the table well formed: if each snapshot row
    holds a dictionary before a request, each row holds one after it,
    whatever the request is and whether it succeeds or fails. *)
Theorem handlers_keep_rows_well_formed login_payload google_sub put_payload
    patch_payload authorization w :
  well_formed w →
  well_formed (google_login settings verify_oauth2_token urlopen_userinfo
                 login_payload authorization w).2
  ∧ well_formed (get_pedigree urlopen_userinfo google_sub authorization w).2
  ∧ well_formed (put_pedigree urlopen_userinfo google_sub put_payload
                   authorization w).2
  ∧ well_formed (remove_pedigree urlopen_userinfo google_sub authorization w).2
  ∧ well_formed (patch_pedigree urlopen_userinfo encode_utf8 b64decode
                   gzip_decompress decode_utf8 json_loads google_sub
                   patch_payload authorization w).2.
Proof.
  intros Hwf. repeat split.
  - revert w Hwf. rewrite google_login_unfold.
    apply preserves_bind; [apply preserves_well_formed_authenticate|].
    intros identity. apply preserves_bind.
    + destruct identity; [by apply preserves_unchanged|].
      apply preserves_try_except; [apply preserves_well_formed_verify|].
      intros e. by apply preserves_unchanged.
    + apply preserves_well_formed_login_as.
  - revert w Hwf. rewrite get_pedigree_owner_checked.
    apply preserves_well_formed_owner_checked. intros user.
    apply preserves_bind; [by apply preserves_unchanged|].
    intros snapshot. apply preserves_bind.
    + destruct snapshot; [|by apply preserves_unchanged].
      apply preserves_unchanged, deref_world.
    + intros v. apply preserves_SnapshotResponse_init.
  - revert w Hwf. rewrite put_pedigree_owner_checked.
    apply preserves_well_formed_owner_checked. intros user w Hwf.
    set (P := SnapshotUpsertRequest.people_by_id put_payload).
    destruct (upsert_snapshot_document (User.id user) (fresh (dom (heap w))) P w)
      as (s & w1 & Hrun & _ & _ & _ & _ & Hdoc & _).
    assert (well_formed w1) as Hwf1.
    { pose proof (well_formed_upsert (User.id user) (fresh (dom (heap w))) P
                    (set_heap (<[fresh (dom (heap w)) := JObj P]> (heap w)) w)) as H.
      rewrite Hrun in H. apply H; [|apply lookup_insert_eq].
      apply (preserves_well_formed_alloc (JObj P) w Hwf). }
    rewrite (bind_Return _ _ w (fresh (dom (heap w)))
               (set_heap (<[fresh (dom (heap w)) := JObj P]> (heap w)) w)) by done.
    rewrite (bind_Return _ _ _ _ _ Hrun).
    assert (deref (PedigreeSnapshot.people_json s) w1 = (Return (JObj P), w1))
      as Hderef by (unfold deref; by rewrite Hdoc).
    by rewrite (bind_Return _ _ _ _ _ Hderef).
  - revert w Hwf. rewrite remove_pedigree_owner_checked.
    apply preserves_well_formed_owner_checked. intros user w Hwf.
    rewrite delete_snapshot_run.
    destruct (find _ _); [|done]. simpl.
    intros s Hs. simpl in Hs. apply Hwf. by eapply elem_of_remove_first.
  - revert w Hwf.
    change (preserves well_formed
              (owner_checked urlopen_userinfo google_sub authorization
                 (λ user,
                    upserts <- alloc (JObj (SnapshotPatchRequest.upserts patch_payload)) ;;
                    deletes <- alloc (JArr (JStr <$> SnapshotPatchRequest.deletes patch_payload)) ;;
                    effective <-
                      (if SnapshotPatchRequest.compressed patch_payload then
                         match SnapshotPatchRequest.payload_b64 patch_payload with
                         | Some payload_b64 =>
                             if falsy (Some payload_b64)
                             then raise (HTTPException 400 "payload_b64 is required when compressed")
                             else
                               try_except
                                 (decode_compressed encode_utf8 b64decode gzip_decompress
                                    decode_utf8 json_loads payload_b64)
                                 (λ _, raise (HTTPException 400 "invalid compressed payload"))
                         | None => raise (HTTPException 400 "payload_b64 is required when compressed")
                         end
                       else ret (upserts, deletes)) ;;
                    let '(upserts, deletes) := effective in
                    snapshot <- apply_snapshot_patch (User.id user) upserts deletes ;;
                    people_json <- deref (PedigreeSnapshot.people_json snapshot) ;;
                    SnapshotResponse_init (User.id user) people_json))).
    apply preserves_well_formed_owner_checked. intros user.
    apply preserves_bind; [apply preserves_well_formed_alloc|]. intros l1.
    apply preserves_bind; [apply preserves_well_formed_alloc|]. intros l2.
    apply preserves_bind.
    + destruct (SnapshotPatchRequest.compressed patch_payload);
        [|by apply preserves_unchanged].
      destruct (SnapshotPatchRequest.payload_b64 patch_payload) as [b|];
        [|by apply preserves_unchanged].
      destruct (falsy (Some b)); [by apply preserves_unchanged|].
      apply preserves_try_except; [|intros e; by apply preserves_unchanged].
      unfold decode_compressed.
      apply preserves_bind; [apply preserves_library|]. intros x1.
      apply preserves_bind; [apply preserves_library|]. intros x2.
      apply preserves_bind; [apply preserves_library|]. intros x3.
      apply preserves_bind; [apply preserves_library|]. intros x4.
      apply preserves_bind; [apply preserves_library|]. intros body.
      destruct body; try by apply preserves_unchanged.
      apply preserves_bind; [apply preserves_well_formed_alloc|]. intros u.
      apply preserves_bind; [apply preserves_well_formed_alloc|]. intros d.
      by apply preserves_unchanged.
    + intros [u d].
      apply preserves_bind; [apply preserves_well_formed_patch|]. intros snapshot.
      apply preserves_bind; [apply preserves_unchanged, deref_world|].
      intros v. apply preserves_SnapshotResponse_init.
Qed.

Lemma well_formed_stored uid w : well_formed w → ∃ D, stored w uid D.
Proof.
  intros Hwf.
  destruct (find (of_user uid) (snapshots (db w))) as [s|] eqn:Hs.
  - destruct (Hwf s) as [D HD].
    { apply find_some in Hs as [Hin _]. by apply list_elem_of_In. }
    exists D. by apply (stored_row _ _ s).
  - exists ∅. by apply stored_none.
Qed.

(** X21. On a world whose rows hold dictionaries, reading, replacing and
    deleting a pedigree fail only at the owner check: the errors of
    [get_pedigree], [put_pedigree] and [remove_pedigree] are 401, 403 and
    404 and no other. *)
Theorem pedigree_fails_only_at_the_owner_check google_sub put_payload
    authorization w :
  well_formed w →
  (∀ e, (get_pedigree urlopen_userinfo google_sub authorization w).1 = Raise e →
        access_error e)
  ∧ (∀ e, (put_pedigree urlopen_userinfo google_sub put_payload authorization w).1
          = Raise e → access_error e)
  ∧ (∀ e, (remove_pedigree urlopen_userinfo google_sub authorization w).1 = Raise e →
          access_error e).
Proof.
  intros Hwf.
  assert (∀ A (k : User.t → M A),
            (∀ user w0, well_formed w0 → ∃ a w1, k user w0 = (Return a, w1)) →
            ∀ e, (owner_checked urlopen_userinfo google_sub authorization k w).1
                 = Raise e → access_error e) as Hcheck.
  { intros A k Hk e.
    destruct (owner_checked_cases google_sub authorization k w)
      as [(e' & w' & -> & He' & _)|(token & c & user & H1 & H2 & H3 & H4)].
    - by intros [= <-].
    - rewrite (owner_checked_pass _ _ _ _ _ _ _ H1 H2 H3 H4).
      destruct (Hk user (log_call (Userinfo token) w) Hwf) as (a & w1 & ->).
      done. }
  repeat split.
  - rewrite get_pedigree_owner_checked. apply Hcheck. intros user w0 Hwf0.
    destruct (well_formed_stored (User.id user) w0 Hwf0) as [D HD].
    eexists _, _. by apply get_pedigree_document.
  - rewrite put_pedigree_owner_checked. apply Hcheck. intros user w0 _.
    set (P := SnapshotUpsertRequest.people_by_id put_payload).
    destruct (upsert_snapshot_document (User.id user) (fresh (dom (heap w0))) P w0)
      as (s & w1 & Hrun & _ & _ & _ & _ & Hdoc & _).
    rewrite (bind_Return _ _ w0 (fresh (dom (heap w0)))
               (set_heap (<[fresh (dom (heap w0)) := JObj P]> (heap w0)) w0)) by done.
    rewrite (bind_Return _ _ _ _ _ Hrun).
    assert (deref (PedigreeSnapshot.people_json s) w1 = (Return (JObj P), w1))
      as Hderef by (unfold deref; by rewrite Hdoc).
    rewrite (bind_Return _ _ _ _ _ Hderef). by eexists _, _.
  - rewrite remove_pedigree_owner_checked. apply Hcheck. intros user w0 _.
    rewrite delete_snapshot_run. destruct (find _ _); by eexists _, _.
Qed.

End MoreHandlers.

(** ** More on bearer extraction *)

Lemma whitespace_nil : whitespace "".
Proof. constructor. Qed.

Lemma whitespace_cons c s :
  whitespace (String c s) ↔ isspace c = true ∧ whitespace s.
Proof. unfold whitespace. simpl. apply (Forall_cons (λ a, isspace a = true)). Qed.

Lemma lstrip_spec s :
  ∃ before, s = before ++ lstrip s
            ∧ whitespace before ∧ starts_with_space (lstrip s) = false.
Proof.
  induction s as [|c s (before & Hs & Hb & Hl)]; simpl.
  - exists "". split; [done|]. split; [apply whitespace_nil|done].
  - destruct (isspace c) eqn:Hc.
    + exists (String c before).
      change (String c before ++ lstrip s) with (String c (before ++ lstrip s)).
      split; [by rewrite <- Hs|].
      split; [by apply whitespace_cons|done].
    + exists "". split; [done|]. split; [apply whitespace_nil|done].
Qed.

Lemma lstrip_app before t :
  whitespace before → starts_with_space t = false → lstrip (before ++ t) = t.
Proof.
  intros Hb Ht. induction before as [|c before IH]; simpl.
  - destruct t as [|c t]; [done|]. simpl in *. by rewrite Ht.
  - apply whitespace_cons in Hb as [-> Hb]. by apply IH.
Qed.

Lemma rstrip_aux_whitespace s : whitespace s → rstrip_aux s = None.
Proof.
  induction s as [|c s IH]; [done|].
  intros [Hc Hs]%whitespace_cons. simpl. by rewrite IH, Hc.
Qed.

Lemma ends_with_space_cons c s :
  s ≠ "" → ends_with_space (String c s) = ends_with_space s.
Proof. by destruct s. Qed.

Lemma rstrip_aux_spec s :
  match rstrip_aux s with
  | Some r => ∃ after, s = r ++ after ∧ whitespace after
                       ∧ ends_with_space r = false ∧ r ≠ ""
  | None => whitespace s
  end.
Proof.
  induction s as [|c s IH]; simpl; [apply whitespace_nil|].
  destruct (rstrip_aux s) as [r|].
  - destruct IH as (after & -> & Ha & Hr & Hne). exists after.
    repeat split; try done. by rewrite ends_with_space_cons.
  - destruct (isspace c) eqn:Hc.
    + by apply whitespace_cons.
    + exists s. by repeat split.
Qed.

Lemma rstrip_aux_app t after :
  t ≠ "" → ends_with_space t = false → whitespace after →
  rstrip_aux (t ++ after) = Some t.
Proof.
  intros Hne Ht Ha. induction t as [|c t IH]; [done|].
  change (String c t ++ after) with (String c (t ++ after)).
  cbn [rstrip_aux]. destruct t as [|c' t].
  - change ("" ++ after) with after.
    rewrite (rstrip_aux_whitespace _ Ha). simpl in Ht. by rewrite Ht.
  - rewrite IH; [done|done|]. by rewrite ends_with_space_cons in Ht.
Qed.

Lemma prefix_append p : ∀ h,
  String.prefix p h = true ↔ ∃ rest, h = p ++ rest.
Proof.
  induction p as [|a p IH]; intros h.
  - split; [|by destruct h]. intros _. by exists h.
  - destruct h as [|b h].
    + split; [done|]. by intros [rest ?].
    + cbn [String.prefix]. destruct (ascii_dec a b) as [<-|Hne].
      * rewrite IH. split; intros [rest Hrest]; exists rest.
        -- change (String a p ++ rest) with (String a (p ++ rest)). by rewrite Hrest.
        -- change (String a p ++ rest) with (String a (p ++ rest)) in Hrest.
           by injection Hrest.
      * split; [done|]. intros [rest Hrest].
        change (String a p ++ rest) with (String a (p ++ rest)) in Hrest.
        injection Hrest as -> _. done.
Qed.

Lemma startswith_Bearer h :
  startswith h "Bearer " = true ↔ ∃ rest, h = "Bearer " ++ rest.
Proof. apply prefix_append. Qed.

(** X22. [extract_bearer_token] returns a token exactly for a header that is
    ["Bearer "], whitespace, the token, whitespace; the token is not empty
    and neither starts nor ends with whitespace. For every other header it
    returns [None]. *)
Theorem extract_bearer_token_spec authorization token :
  extract_bearer_token authorization = Some token
  ↔ ∃ before after,
      authorization = Some ("Bearer " ++ before ++ token ++ after)
      ∧ whitespace before ∧ whitespace after
      ∧ token ≠ ""
      ∧ starts_with_space token = false
      ∧ ends_with_space token = false.
Proof.
  split.
  - unfold extract_bearer_token. destruct authorization as [h|]; [|done].
    destruct (falsy (Some h)); [done|].
    destruct (startswith h "Bearer ") eqn:Hprefix; [|done]. cbn [negb].
    apply startswith_Bearer in Hprefix as [rest ->].
    change (slice_from (String.length "Bearer ") ("Bearer " ++ rest)) with rest.
    unfold strip, rstrip, falsy.
    destruct (lstrip_spec rest) as (before & Hrest & Hb & Hstart).
    pose proof (rstrip_aux_spec (lstrip rest)) as Hr.
    destruct (rstrip_aux (lstrip rest)) as [r|]; cbn [default]; [|done].
    destruct Hr as (after & Hm & Ha & Hend & Hne).
    rewrite bool_decide_eq_false_2 by done. intros [= <-].
    exists before, after. rewrite <- Hm, <- Hrest. repeat split; try done.
    rewrite Hm in Hstart. by destruct r.
  - intros (before & after & -> & Hb & Ha & Hne & Hstart & Hend).
    unfold extract_bearer_token.
    assert (falsy (Some ("Bearer " ++ before ++ token ++ after)) = false) as -> by done.
    assert (startswith ("Bearer " ++ before ++ token ++ after) "Bearer " = true)
      as -> by (apply startswith_Bearer; by eexists).
    change (slice_from (String.length "Bearer ")
              ("Bearer " ++ before ++ token ++ after))
      with (before ++ token ++ after).
    cbn [negb]. unfold strip, rstrip, falsy.
    rewrite lstrip_app; [|done|by destruct token].
    rewrite rstrip_aux_app by done. cbn [default].
    by rewrite bool_decide_eq_false_2.
Qed.

(** ** The further statements at sample inputs *)

Lemma well_formed_sample : well_formed Sample.w0.
Proof.
  intros s Hs. apply list_elem_of_singleton in Hs. subst s.
  eexists. vm_compute. reflexivity.
Qed.

Lemma get_pedigree_returns_document_witness :
  (extract_bearer_token (Some "Bearer token-2") = Some "token-2"
   ∧ Sample.userinfo "token-2" = UserinfoClaims Sample.claims2
   ∧ Claims.sub Sample.claims2 = Some "sub-2"
   ∧ get_user_by_google_sub "sub-2" Sample.w0 = (Return (Some Sample.user2), Sample.w0)
   ∧ stored Sample.w0 (User.id Sample.user2) ∅)
  ∧ get_pedigree Sample.userinfo "sub-2" (Some "Bearer token-2") Sample.w0
    = (Return {| SnapshotResponse.user_id := User.id Sample.user2;
                 SnapshotResponse.people_by_id := ∅ |},
       log_call (Userinfo "token-2") Sample.w0).
Proof.
  assert (stored Sample.w0 (User.id Sample.user2) ∅) as HD
    by (apply stored_none; reflexivity).
  split; [by repeat split|].
  exact (get_pedigree_returns_document Sample.userinfo "sub-2"
           (Some "Bearer token-2") "token-2" Sample.claims2 Sample.user2 ∅
           Sample.w0 eq_refl eq_refl eq_refl eq_refl HD).
Defined.

Lemma put_then_get_pedigree_witness :
  (extract_bearer_token (Some "Bearer token-2") = Some "token-2"
   ∧ Sample.userinfo "token-2" = UserinfoClaims Sample.claims2
   ∧ Claims.sub Sample.claims2 = Some "sub-2"
   ∧ get_user_by_google_sub "sub-2" Sample.w0 = (Return (Some Sample.user2), Sample.w0))
  ∧ ∃ w1,
      put_pedigree Sample.userinfo "sub-2" Sample.replacement
        (Some "Bearer token-2") Sample.w0
      = (Return {| SnapshotResponse.user_id := User.id Sample.user2;
                   SnapshotResponse.people_by_id :=
                     SnapshotUpsertRequest.people_by_id Sample.replacement |}, w1)
      ∧ get_pedigree Sample.userinfo "sub-2" (Some "Bearer token-2") w1
        = (Return {| SnapshotResponse.user_id := User.id Sample.user2;
                     SnapshotResponse.people_by_id :=
                       SnapshotUpsertRequest.people_by_id Sample.replacement |},
           log_call (Userinfo "token-2") w1)
      ∧ users (db w1) = users (db Sample.w0).
Proof.
  split; [by repeat split|].
  exact (put_then_get_pedigree Sample.userinfo "sub-2" Sample.replacement
           (Some "Bearer token-2") "token-2" Sample.claims2 Sample.user2
           Sample.w0 eq_refl eq_refl eq_refl eq_refl).
Defined.

Lemma remove_then_get_pedigree_witness :
  (extract_bearer_token (Some "Bearer token-1") = Some "token-1"
   ∧ Sample.userinfo "token-1" = UserinfoClaims Sample.claims1
   ∧ Claims.sub Sample.claims1 = Some "sub-1"
   ∧ get_user_by_google_sub "sub-1" Sample.w0 = (Return (Some Sample.user1), Sample.w0)
   ∧ one_snapshot_per_account Sample.w0)
  ∧ ∃ w1,
      remove_pedigree Sample.userinfo "sub-1" (Some "Bearer token-1") Sample.w0
      = (Return (bool_decide
                   (is_Some (find (of_user (User.id Sample.user1))
                               (snapshots (db Sample.w0))))), w1)
      ∧ users (db w1) = users (db Sample.w0)
      ∧ get_pedigree Sample.userinfo "sub-1" (Some "Bearer token-1") w1
        = (Return {| SnapshotResponse.user_id := User.id Sample.user1;
                     SnapshotResponse.people_by_id := ∅ |},
           log_call (Userinfo "token-1") w1)
      ∧ (remove_pedigree Sample.userinfo "sub-1" (Some "Bearer token-1") w1).1
        = Return false.
Proof.
  assert (one_snapshot_per_account Sample.w0) as Hnd.
  { unfold one_snapshot_per_account. simpl. apply NoDup_singleton. }
  split; [by repeat split|].
  exact (remove_then_get_pedigree Sample.userinfo "sub-1"
           (Some "Bearer token-1") "token-1" Sample.claims1 Sample.user1
           Sample.w0 eq_refl eq_refl eq_refl eq_refl Hnd).
Defined.

Lemma pedigree_account_missing_witness :
  (extract_bearer_token (Some "Bearer token-3") = Some "token-3"
   ∧ Cases.userinfo "token-3" = UserinfoClaims Cases.claims3
   ∧ Claims.sub Cases.claims3 = Some "sub-3"
   ∧ get_user_by_google_sub "sub-3" Sample.w0 = (Return None, Sample.w0))
  ∧ get_pedigree Cases.userinfo "sub-3" (Some "Bearer token-3") Sample.w0
    = (Raise (HTTPException 404 "user not found"),
       log_call (Userinfo "token-3") Sample.w0)
  ∧ put_pedigree Cases.userinfo "sub-3" Sample.replacement
      (Some "Bearer token-3") Sample.w0
    = (Raise (HTTPException 404 "user not found"),
       log_call (Userinfo "token-3") Sample.w0)
  ∧ remove_pedigree Cases.userinfo "sub-3" (Some "Bearer token-3") Sample.w0
    = (Raise (HTTPException 404 "user not found"),
       log_call (Userinfo "token-3") Sample.w0)
  ∧ patch_pedigree Cases.userinfo Sample.encode Sample.b64 Sample.gunzip
      Sample.decode Sample.loads "sub-3" Sample.inline_patch
      (Some "Bearer token-3") Sample.w0
    = (Raise (HTTPException 404 "user not found"),
       log_call (Userinfo "token-3") Sample.w0).
Proof.
  split; [by repeat split|].
  exact (pedigree_account_missing Cases.userinfo Sample.encode Sample.b64
           Sample.gunzip Sample.decode Sample.loads "sub-3"
           (Some "Bearer token-3") "token-3" Cases.claims3 Sample.replacement
           Sample.inline_patch Sample.w0 eq_refl eq_refl eq_refl eq_refl).
Defined.

Lemma google_login_id_token_path_witness :
  (extract_bearer_token None = None
   ∧ GoogleLoginRequest.id_token Cases.bad_id_token = Some "id-token-0"
   ∧ "id-token-0" ≠ ""
   ∧ Settings.google_client_id Sample.production = Some "client-1"
   ∧ "client-1" ≠ "")
  ∧ let out := google_login Sample.production Sample.verify Sample.userinfo
                 Cases.bad_id_token None Sample.w0 in
    match Sample.verify "id-token-0" "client-1" with
    | Some c =>
        out = login_as (verified c)
                (log_call (VerifyOAuth2Token "id-token-0" "client-1") Sample.w0)
    | None =>
        out = (Raise (HTTPException 401 "invalid id token"),
               log_call (VerifyOAuth2Token "id-token-0" "client-1") Sample.w0)
    end.
Proof.
  assert ("id-token-0" ≠ "") as Ht by discriminate.
  assert ("client-1" ≠ "") as Ha by discriminate.
  split; [by repeat split|].
  exact (google_login_id_token_path Sample.production Sample.verify
           Sample.userinfo Cases.bad_id_token None "id-token-0" "client-1"
           Sample.w0 eq_refl eq_refl Ht eq_refl Ha).
Defined.



Lemma patch_pedigree_inline_then_get_witness :
  (extract_bearer_token (Some "Bearer token-1") = Some "token-1"
   ∧ Sample.userinfo "token-1" = UserinfoClaims Sample.claims1
   ∧ Claims.sub Sample.claims1 = Some "sub-1"
   ∧ get_user_by_google_sub "sub-1" Sample.w0 = (Return (Some Sample.user1), Sample.w0)
   ∧ SnapshotPatchRequest.compressed Sample.inline_patch = false
   ∧ stored Sample.w0 (User.id Sample.user1) {[ "p1" := Sample.alice ]})
  ∧ ∃ w1,
      patch_pedigree Sample.userinfo Sample.encode Sample.b64 Sample.gunzip
        Sample.decode Sample.loads "sub-1" Sample.inline_patch
        (Some "Bearer token-1") Sample.w0
      = (Return {| SnapshotResponse.user_id := User.id Sample.user1;
                   SnapshotResponse.people_by_id :=
                     SnapshotPatchRequest.upserts Sample.inline_patch
                     ∪ without (SnapshotPatchRequest.deletes Sample.inline_patch)
                         {[ "p1" := Sample.alice ]} |}, w1)
      ∧ get_pedigree Sample.userinfo "sub-1" (Some "Bearer token-1") w1
        = (Return {| SnapshotResponse.user_id := User.id Sample.user1;
                     SnapshotResponse.people_by_id :=
                       SnapshotPatchRequest.upserts Sample.inline_patch
                       ∪ without (SnapshotPatchRequest.deletes Sample.inline_patch)
                           {[ "p1" := Sample.alice ]} |},
           log_call (Userinfo "token-1") w1).
Proof.
  assert (stored Sample.w0 (User.id Sample.user1) {[ "p1" := Sample.alice ]}) as HD.
  { apply (stored_row _ _ Sample.snapshot1); vm_compute; reflexivity. }
  split; [by repeat split|].
  exact (patch_pedigree_inline_then_get Sample.userinfo Sample.encode Sample.b64
           Sample.gunzip Sample.decode Sample.loads "sub-1" Sample.inline_patch
           (Some "Bearer token-1") "token-1" Sample.claims1 Sample.user1 _
           Sample.w0 eq_refl eq_refl eq_refl eq_refl eq_refl HD).
Defined.


Lemma handlers_keep_rows_well_formed_witness :
  well_formed Sample.w0
  ∧ well_formed (google_login Sample.production Sample.verify Sample.userinfo
                   Sample.with_id_token (Some "Bearer token-1") Sample.w0).2
  ∧ well_formed (get_pedigree Sample.userinfo "sub-1" (Some "Bearer token-1")
                   Sample.w0).2
  ∧ well_formed (put_pedigree Sample.userinfo "sub-1" Sample.replacement
                   (Some "Bearer token-1") Sample.w0).2
  ∧ well_formed (remove_pedigree Sample.userinfo "sub-1" (Some "Bearer token-1")
                   Sample.w0).2
  ∧ well_formed (patch_pedigree Sample.userinfo Sample.encode Sample.b64
                   Sample.gunzip Sample.decode Sample.loads "sub-1"
                   Sample.compressed_patch (Some "Bearer token-1") Sample.w0).2.
Proof.
  split; [apply well_formed_sample|].
  exact (handlers_keep_rows_well_formed Sample.production Sample.verify
           Sample.userinfo Sample.encode Sample.b64 Sample.gunzip Sample.decode
           Sample.loads Sample.with_id_token "sub-1" Sample.replacement
           Sample.compressed_patch (Some "Bearer token-1") Sample.w0
           well_formed_sample).
Defined.

Lemma pedigree_fails_only_at_the_owner_check_witness :
  well_formed Sample.w0
  ∧ (∀ e, (get_pedigree Sample.userinfo "sub-1" (Some "Bearer token-2")
             Sample.w0).1 = Raise e → access_error e)
  ∧ (∀ e, (put_pedigree Sample.userinfo "sub-1" Sample.replacement
             (Some "Bearer token-2") Sample.w0).1 = Raise e → access_error e)
  ∧ (∀ e, (remove_pedigree Sample.userinfo "sub-1" (Some "Bearer token-2")
             Sample.w0).1 = Raise e → access_error e).
Proof.
  split; [apply well_formed_sample|].
  exact (pedigree_fails_only_at_the_owner_check Sample.userinfo "sub-1"
           Sample.replacement (Some "Bearer token-2") Sample.w0
           well_formed_sample).
Defined.
